(** * Glucose log predictor: the alert backtest and the synthetic generator

    A shallow embedding of the numeric core of [app.js]:
    [predictSugarCurve], [generateSyntheticSeries] and [backtest].

    Numbers.  JavaScript numbers are IEEE doubles.  The evaluator only adds,
    subtracts, multiplies, divides and compares readings, so it is embedded
    over exact rationals ([Q]); timestamps are integer milliseconds ([Z]).
    The one unguarded division of the evaluator ([horizonMin / stepMin]) is
    modelled with the non-finite results JavaScript gives for a zero
    divisor.  The generator and the absorption curve use [exp], [sin],
    [ln], [sqrt] and [cos], so they are embedded over the real numbers.
    Rounding error of doubles is not modelled. *)

From Stdlib Require Import ZArith QArith Qround List Bool Lia Sorted.
From Stdlib Require Import Reals Lra.
From Stdlib Require Import Qminmax Qreals Permutation.
From Stdlib Require String Ascii Lqa.
Import ListNotations.

(** ** JavaScript numbers that may be non-finite *)

Module JsNum.

Inductive ext (A : Type) : Type :=
| Fin (a : A)
| PosInf
| NegInf
| NaN.
Arguments Fin {A} a.
Arguments PosInf {A}.
Arguments NegInf {A}.
Arguments NaN {A}.

(** [x < y] on rationals, as a boolean. *)
Definition Qltb (x y : Q) : bool := negb (Qle_bool y x).

(** [a / b]: a zero divisor gives an infinity of the sign of [a], and
    [0 / 0] is NaN. *)
Definition js_div (a b : Q) : ext Q :=
  if Qeq_bool b 0 then
    if Qltb 0 a then PosInf else if Qltb a 0 then NegInf else NaN
  else Fin (a / b)%Q.

(** [Math.round] on a finite number: the nearest integer, ties going up. *)
Definition round (q : Q) : Z := Qfloor (q + (1 # 2))%Q.

(** [Math.round]: the non-finite values are returned as they are. *)
Definition js_round (x : ext Q) : ext Z :=
  match x with
  | Fin q => Fin (round q)
  | PosInf => PosInf
  | NegInf => NegInf
  | NaN => NaN
  end.

(** [Math.max(n, x)] for a finite [n]. *)
Definition js_max (n : Z) (x : ext Z) : ext Z :=
  match x with
  | Fin z => Fin (Z.max n z)
  | PosInf => PosInf
  | NegInf => Fin n
  | NaN => NaN
  end.

(** [i < n - x] for finite [i] and [n]: every comparison with NaN is
    false, [n - Infinity] is [-Infinity]. *)
Definition js_lt_sub (i n : Z) (x : ext Z) : bool :=
  match x with
  | Fin z => (i <? n - z)%Z
  | PosInf => false
  | NegInf => true
  | NaN => false
  end.

End JsNum.
Import JsNum.

(** ** The backtest *)

Module Backtest.

Record Sample : Type := mkSample { tMs : Z; bg : Q }.

Inductive Risk : Type := NONE | HYPO | HYPER.

Definition Risk_eqb (a b : Risk) : bool :=
  match a, b with
  | NONE, NONE | HYPO, HYPO | HYPER, HYPER => true
  | _, _ => false
  end.

Record Counts : Type := mkCounts { TP : nat; FP : nat; FN : nat }.

(** The state of the improved policy: [active], [persist],
    [cooldownUntilMs]. *)
Record Policy : Type :=
  mkPolicy { active : Risk; persist : nat; cooldownUntilMs : Z }.

(** What one iteration of the loop computed; the loop keeps these in a
    log (the source keeps only the counters). *)
Record Obs : Type := mkObs {
  index : nat;
  nowMs : Z;
  trueHypo : bool;
  trueHyper : bool;
  trueEvent : bool;
  baseHypoAlert : bool;
  baseHyperAlert : bool;
  baseAlert : bool;
  rawRisk : Risk;
  persistAfter : nat;
  inCooldown : bool;
  impAlert : bool
}.

Record Loop : Type := mkLoop {
  baseC : Counts;
  impC : Counts;
  pol : Policy;
  log : list Obs
}.

Record PolicyReport : Type := mkPolicyReport {
  rTP : nat; rFP : nat; rFN : nat; rPrecision : Q; rRecall : Q
}.

Record Report : Type := mkReport {
  baseline : PolicyReport;
  improved : PolicyReport;
  fpReductionPct : Q
}.

Definition noSample : Sample := mkSample 0 0.

(** [series[i]]; every index the loop reads is in range
    (see [evaluated_reads_in_range]). *)
Definition at_ (series : list Sample) (i : nat) : Sample :=
  nth i series noSample.

Definition ofNat (n : nat) : Q := inject_Z (Z.of_nat n).

Section Run.

Variable series : list Sample.
Variables low high horizonMin : Q.

Definition stepMin : Q :=
  (inject_Z (tMs (at_ series 1) - tMs (at_ series 0)) / 60000)%Q.

Definition horizonSteps : ext Z :=
  js_max 1 (js_round (js_div horizonMin stepMin)).

(** [slopePerMin(i, k)] *)
Definition slopePerMin (i : nat) (k : Z) : Q :=
  let start := Z.to_nat (Z.max 0 (Z.of_nat i - k + 1)) in
  let t0 := tMs (at_ series start) in
  let t1 := tMs (at_ series i) in
  let dt := (inject_Z (t1 - t0) / 60000)%Q in
  if Qle_bool dt 0 then 0%Q
  else ((bg (at_ series i) - bg (at_ series start)) / dt)%Q.

(** [projectedBg(i)] *)
Definition projectedBg (i : nat) : Q :=
  let m := slopePerMin i 6 in
  (bg (at_ series i) + m * horizonMin)%Q.

Definition hypoExit : Q := (low + 5)%Q.
Definition hyperExit : Q := (high - 10)%Q.

(** The three counting statements that follow a decision. *)
Definition tally (alert event : bool) (c : Counts) : Counts :=
  let c1 := if alert && event then mkCounts (S (TP c)) (FP c) (FN c) else c in
  let c2 := if alert && negb event
            then mkCounts (TP c1) (S (FP c1)) (FN c1) else c1 in
  if negb alert && event then mkCounts (TP c2) (FP c2) (S (FN c2)) else c2.

(** The improved policy on one step, from the persistence update to
    the hysteresis clearing. *)
Definition improvedStep (p : Policy) (now : Z) (risk : Risk)
    (smoothProj : Q) : Policy * (nat * bool * bool) :=
  let persist1 :=
    if negb (Risk_eqb risk NONE)
    then (if Risk_eqb risk (active p) then persist p + 1 else persist p + 1)%nat
    else 0%nat in
  let cooling := (now <? cooldownUntilMs p)%Z in
  let fire := negb cooling && negb (Risk_eqb risk NONE) && (2 <=? persist1)%nat in
  let active1 := if fire then risk else active p in
  let cooldown1 := if fire then (now + 60 * 60000)%Z else cooldownUntilMs p in
  let active2 :=
    if Risk_eqb active1 HYPO && Qltb hypoExit smoothProj then NONE else active1 in
  let active3 :=
    if Risk_eqb active2 HYPER && Qltb smoothProj hyperExit then NONE else active2 in
  (mkPolicy active3 persist1 cooldown1, (persist1, cooling, fire)).

(** The raw risk of the improved policy at index [i]. *)
Definition smoothBg (i : nat) : Q :=
  let s1 := bg (at_ series i) in
  let s2 := bg (at_ series (i - 1)) in
  let s3 := bg (at_ series (i - 2)) in
  ((s1 + s2 + s3) / 3)%Q.

Definition smoothProj (i : nat) : Q :=
  let m := slopePerMin i 6 in
  (smoothBg i + m * horizonMin)%Q.

Definition rawRiskAt (i : nat) : Risk :=
  let rawHypo := Qltb (smoothBg i) low || Qltb (smoothProj i) low in
  let rawHyper := Qltb high (smoothBg i) || Qltb high (smoothProj i) in
  if rawHypo then HYPO else if rawHyper then HYPER else NONE.

(** [series.slice(i + 1, i + 1 + h)] *)
Definition future (h : Z) (i : nat) : list Sample :=
  firstn (Z.to_nat h) (skipn (i + 1) series).

(** What the loop body computes at index [i] from the series and the
    policy state, with [h] the finite [horizonSteps]: the truth labels,
    the baseline decision and the improved decision. *)
Definition observe (h : Z) (p : Policy) (i : nat) : Policy * Obs :=
  let now := at_ series i in
  let fut := future h i in
  let tHypo := existsb (fun q => Qltb (bg q) low) fut in
  let tHyper := existsb (fun q => Qltb high (bg q)) fut in
  let proj := projectedBg i in
  let bHypo := Qltb (bg now) low || Qltb proj low in
  let bHyper := Qltb high (bg now) || Qltb high proj in
  let bAlert := bHypo || bHyper in
  let tEvent := tHypo || tHyper in
  let risk := rawRiskAt i in
  let '(pol1, (persist1, cooling, fire)) :=
    improvedStep p (tMs now) risk (smoothProj i) in
  (pol1, mkObs i (tMs now) tHypo tHyper tEvent bHypo bHyper bAlert
               risk persist1 cooling fire).

(** The loop body at index [i]: the decisions, then the counters
    ([impTrueEvent] is [trueEvent]). *)
Definition body (h : Z) (i : nat) (st : Loop) : Loop :=
  let '(pol1, o) := observe h (pol st) i in
  let baseC1 := tally (baseAlert o) (trueEvent o) (baseC st) in
  let impTrueEvent := trueEvent o in
  let impC1 := tally (impAlert o) impTrueEvent (impC st) in
  mkLoop baseC1 impC1 pol1 (log st ++ [o]).

(** The loop guard [i < series.length - horizonSteps]. *)
Definition guard (i : nat) : bool :=
  js_lt_sub (Z.of_nat i) (Z.of_nat (length series)) horizonSteps.

(** The slice length: only read when the guard holds, that is when
    [horizonSteps] is finite. *)
Definition sliceSteps : Z :=
  match horizonSteps with Fin h => h | _ => 0%Z end.

(** [for (let i = 10; i < series.length - horizonSteps; i++)] *)
Fixpoint loop (fuel : nat) (i : nat) (st : Loop) : Loop :=
  match fuel with
  | O => st
  | S fuel' =>
      if guard i then loop fuel' (S i) (body sliceSteps i st) else st
  end.

Definition initial : Loop :=
  mkLoop (mkCounts 0 0 0) (mkCounts 0 0 0) (mkPolicy NONE 0 0) [].

Definition precision (tp fp : nat) : Q :=
  let denom := (tp + fp)%nat in
  if (denom =? 0)%nat then 0%Q else (ofNat tp / ofNat denom)%Q.

Definition recall (tp fn : nat) : Q :=
  let denom := (tp + fn)%nat in
  if (denom =? 0)%nat then 0%Q else (ofNat tp / ofNat denom)%Q.

Definition fpReduction (baseFP impFP : nat) : Q :=
  if (baseFP =? 0)%nat then 0%Q
  else ((ofNat baseFP - ofNat impFP) / ofNat baseFP * 100)%Q.

Definition policyReport (c : Counts) : PolicyReport :=
  mkPolicyReport (TP c) (FP c) (FN c)
    (precision (TP c) (FP c)) (recall (TP c) (FN c)).

Definition report (st : Loop) : Report :=
  mkReport (policyReport (baseC st)) (policyReport (impC st))
    (fpReduction (FP (baseC st)) (FP (impC st))).

(** The loop started at 10, [None] when the series is too short (a
    series is a list here, so the test [!series] has no case).  The
    fuel is the length of the series: the guard fails before it is used
    up (see [loop_finite]). *)
Definition run : option Loop :=
  if (length series <? 20)%nat then None
  else Some (loop (length series) 10 initial).

(** [backtest(series, low, high, horizonMin)]; [None] is [null]. *)
Definition backtest : option Report := option_map report run.

End Run.

Arguments observe : simpl never.
Arguments improvedStep : simpl never.
Arguments body : simpl never.

(** The log of the iterations at [idxs], from the policy state [p]. *)
Fixpoint observations (series : list Sample) (low high horizonMin : Q)
    (h : Z) (p : Policy) (idxs : list nat) : list Obs :=
  match idxs with
  | [] => []
  | i :: idxs' =>
      let '(p1, o) := observe series low high horizonMin h p i in
      o :: observations series low high horizonMin h p1 idxs'
  end.

(** The policy state after the iterations at [idxs]. *)
Fixpoint policyAfter (series : list Sample) (low high horizonMin : Q)
    (h : Z) (p : Policy) (idxs : list nat) : Policy :=
  match idxs with
  | [] => p
  | i :: idxs' =>
      policyAfter series low high horizonMin h
        (fst (observe series low high horizonMin h p i)) idxs'
  end.

(** The iterations of a backtest in order; none when it returns null. *)
Definition steps (series : list Sample) (low high horizonMin : Q) : list Obs :=
  match run series low high horizonMin with
  | Some st => log st
  | None => []
  end.

(** The report of a run that never entered the loop. *)
Definition zeroReport : Report :=
  mkReport (mkPolicyReport 0 0 0 0 0) (mkPolicyReport 0 0 0 0 0) 0.

(** How many logged iterations satisfy [f]. *)
Definition count (f : Obs -> bool) (l : list Obs) : nat :=
  length (filter f l).

End Backtest.

(** ** The absorption curve and the synthetic generator *)

Module Generator.

Local Open Scope R_scope.

(** An entry of the generated series, [{ tMs, bg }]. *)
Record Point : Type := mkPoint { tMs : Z; bg : R }.

(** An entry of the predicted curve, [{ tMin, bg }]. *)
Record CurvePoint : Type := mkCurvePoint { tMin : Z; cbg : R }.

(** [Math.round] on a real number. *)
Definition Rround (r : R) : Z := Int_part (r + / 2).

(** [x * Math.exp(1 - x)] *)
Definition shape (x : R) : R := x * exp (1 - x).

(** The rise [t] minutes after the onset, the body of both
    [predictSugarCurve]'s loop and [mealDeltaAtMinute]'s:
    [x = t / Math.max(1, peakMin)], [peakRise * shape]. *)
Definition absorption (peakRise t peakMin : R) : R :=
  let x := t / Rmax 1 peakMin in
  peakRise * shape x.

Section Predict.

Variables currentBg gramsSugar mgdlPerGram peakMin : R.
Variable horizonMin : Z.
Variable activityFactor : R.

Definition peakRise : R := gramsSugar * mgdlPerGram * activityFactor.

(** [for (let t = 0; t <= horizonMin; t += step)] with [step = 10]. *)
Fixpoint curveLoop (fuel : nat) (t : Z) : list CurvePoint :=
  match fuel with
  | O => []
  | S fuel' =>
      if (t <=? horizonMin)%Z then
        mkCurvePoint t (currentBg + absorption peakRise (IZR t) peakMin)
          :: curveLoop fuel' (t + 10)
      else []
  end.

Definition predictSugarCurve : list CurvePoint :=
  curveLoop (Z.to_nat horizonMin + 1) 0.

End Predict.

(** Computations that call [Math.random()]: the random source is the
    sequence of its results, the state is how many were drawn. *)
Definition Rand (A : Type) : Type := (nat -> R) -> nat -> A * nat.

Definition ret {A} (a : A) : Rand A := fun _ n => (a, n).

Definition bind {A B} (c : Rand A) (k : A -> Rand B) : Rand B :=
  fun rng n => let '(a, n') := c rng n in k a rng n'.

Definition random : Rand R := fun rng n => (rng n, S n).

Notation "x <- c ;; k" := (bind c (fun x => k))
  (at level 61, c at next level, right associativity).

Section Generate.

Variable dateNow : Z.          (* [Date.now()] *)
Variables days approxPoints : Z.

Definition totalMinutes : Z := days * 24 * 60.

Definition stepMin : ext Z :=
  js_max 5 (js_round (js_div (inject_Z totalMinutes) (inject_Z approxPoints))).

Definition base : R := 115.
Definition noiseSd : R := 8.
Definition dailyAmp : R := 12.
Definition mgdlPerGram' : R := 14 / 10.
Definition peakMin' : R := 45.

(** Box-Muller gaussian noise *)
Definition randn : Rand R :=
  r1 <- random ;;
  r2 <- random ;;
  let u := Rmax (/ 1000000000) r1 in
  let v := Rmax (/ 1000000000) r2 in
  ret (sqrt (-2 * ln u) * cos (2 * PI * v)).

(** The meal schedule, three meals a day from day [d] on. *)
Fixpoint mealSchedule (n : nat) (d : Z) : Rand (list Z) :=
  match n with
  | O => ret []
  | S n' =>
      let dayStart := (d * 24 * 60)%Z in
      r1 <- random ;;
      r2 <- random ;;
      r3 <- random ;;
      rest <- mealSchedule n' (d + 1) ;;
      ret ((dayStart + 8 * 60 + Rround ((r1 - 1 / 2) * 45))%Z
           :: (dayStart + 13 * 60 + Rround ((r2 - 1 / 2) * 60))%Z
           :: (dayStart + 19 * 60 + Rround ((r3 - 1 / 2) * 60))%Z
           :: rest)
  end.

(** [mealTimes.map(() => 20 + Math.round(Math.random() * 60))] *)
Fixpoint mealSugars (ts : list Z) : Rand (list Z) :=
  match ts with
  | [] => ret []
  | _ :: ts' =>
      r <- random ;;
      rest <- mealSugars ts' ;;
      ret ((20 + Rround (r * 60))%Z :: rest)
  end.

(** [mealDeltaAtMinute(minute)]; [mealSugar] is as long as
    [mealTimes]. *)
Definition mealDeltaAtMinute (mealTimes mealSugar : list Z) (minute : Z) : R :=
  fold_left
    (fun total ms =>
       let dt := (minute - fst ms)%Z in
       if (dt <? 0)%Z then total
       else total + absorption (IZR (snd ms) * mgdlPerGram') (IZR dt) peakMin')
    (combine mealTimes mealSugar) 0.

(** [n] pushes of [Math.round(Math.random() * totalMinutes)]. *)
Fixpoint drawEvents (n : nat) : Rand (list Z) :=
  match n with
  | O => ret []
  | S n' =>
      r <- random ;;
      rest <- drawEvents n' ;;
      ret (Rround (r * IZR totalMinutes) :: rest)
  end.

Definition numHypo : Z := Z.max 1 (round (inject_Z days / 18)%Q).
Definition numHyper : Z := Z.max 1 (round (inject_Z days / 12)%Q).

Definition kernel (amplitude sigma : R) (minute t0 : Z) : R :=
  let dt := IZR (minute - t0) in
  amplitude * exp (- (dt * dt) / (2 * sigma * sigma)).

(** [eventDeltaAtMinute(minute)] *)
Definition eventDeltaAtMinute (hypoEvents hyperEvents : list Z) (minute : Z) : R :=
  let delta1 :=
    fold_left (fun delta t0 => delta + kernel (- 35) 35 minute t0) hypoEvents 0 in
  fold_left (fun delta t0 => delta + kernel 55 50 minute t0) hyperEvents delta1.

Definition startMs : Z := (dateNow - days * 24 * 60 * 60 * 1000)%Z.

(** [for (let m = 0; m <= totalMinutes; m += stepMin)]: after a
    non-finite [stepMin], [m] is [Infinity] or NaN and the test
    fails. *)
Fixpoint mainLoop (mealTimes mealSugar hypoEvents hyperEvents : list Z)
    (fuel : nat) (m : Z) : Rand (list Point) :=
  match fuel with
  | O => ret []
  | S fuel' =>
      if (m <=? totalMinutes)%Z then
        let t := (startMs + m * 60 * 1000)%Z in
        let dayPhase := IZR (Z.rem m (24 * 60)) / (24 * 60) * 2 * PI in
        let daily := dailyAmp * sin (dayPhase - 8 / 10) in
        let meal := mealDeltaAtMinute mealTimes mealSugar m in
        let events := eventDeltaAtMinute hypoEvents hyperEvents m in
        z <- randn ;;
        let noise := noiseSd * z in
        let v := base + daily + meal + events + noise in
        rest <- match stepMin with
                | Fin s =>
                    mainLoop mealTimes mealSugar hypoEvents hyperEvents
                      fuel' (m + s)
                | _ => ret []
                end ;;
        ret (mkPoint t (Rmax 40 (Rmin 400 v)) :: rest)
      else ret []
  end.

(** [generateSyntheticSeries(days, approxPoints)].  The step is at
    least 5, so the loop ends before its fuel does
    (see [mainLoop_length]). *)
Definition generateSyntheticSeries : Rand (list Point) :=
  mealTimes <- mealSchedule (Z.to_nat days) 0 ;;
  mealSugar <- mealSugars mealTimes ;;
  hypoEvents <- drawEvents (Z.to_nat numHypo) ;;
  hyperEvents <- drawEvents (Z.to_nat numHyper) ;;
  mainLoop mealTimes mealSugar hypoEvents hyperEvents
    (Z.to_nat totalMinutes + 1) 0.

End Generate.

End Generator.

(** ** The specification's wording, to compare the code with *)

Module Spec.

Import Backtest.

(** The indices from 10 to [length - h - 1]. *)
Definition range (len : nat) (h : Z) : list nat :=
  seq 10 (Z.to_nat (Z.of_nat len - h) - 10).

(** The evaluated indices: none when [horizonSteps] is not finite. *)
Definition evaluated (series : list Sample) (horizonMin : Q) : list nat :=
  match horizonSteps series horizonMin with
  | Fin h => range (length series) h
  | _ => []
  end.

Section Baseline.

Variable series : list Sample.
Variables low high horizonMinutes : Q.

(** Slope over the trailing 6-sample window, whose start clamps to 0. *)
Definition slope (i : nat) : Q :=
  let start := Nat.max 0 (i - 5) in
  let elapsedMinutes :=
    (inject_Z (tMs (at_ series i) - tMs (at_ series start)) / 60000)%Q in
  if Qle_bool elapsedMinutes 0 then 0%Q
  else ((bg (at_ series i) - bg (at_ series start)) / elapsedMinutes)%Q.

Definition projected (i : nat) : Q :=
  (bg (at_ series i) + slope i * horizonMinutes)%Q.

Definition hypo (i : nat) : bool :=
  Qltb (bg (at_ series i)) low || Qltb (projected i) low.

Definition hyper (i : nat) : bool :=
  Qltb high (bg (at_ series i)) || Qltb high (projected i).

End Baseline.

(** The condition under which the evaluator is to report insufficient
    data: fewer than 20 samples, or [length - horizonSteps <= 10]. *)
Definition insufficient (series : list Sample) (horizonMin : Q) : Prop :=
  (length series < 20)%nat \/
  match horizonSteps series horizonMin with
  | Fin h => (Z.of_nat (length series) - h <= 10)%Z
  | _ => True
  end.

(** [precision = TP / (TP + FP)], 0 on a zero denominator; the same
    shape serves [recall] with FN. *)
Definition ratio (tp other : nat) : Q :=
  if (tp + other =? 0)%nat then 0%Q
  else (ofNat tp / (ofNat tp + ofNat other))%Q.

End Spec.

(** ** Example inputs *)

Module Examples.

Import Backtest.

(** A series sampled every 5 minutes: 150 mg/dL, but 60 mg/dL from
    sample [a] to sample [b]. *)
Definition dip (n a b : nat) : list Sample :=
  map (fun k =>
         mkSample (300000 * Z.of_nat k)
           (if (a <=? k)%nat && (k <=? b)%nat then 60 else 150)%Q)
      (seq 0 n).

Definition long : list Sample := dip 45 14 34.
Definition short : list Sample := dip 20 14 34.

Definition noObs : Obs :=
  mkObs 0 0 false false false false false false NONE 0 false false.

(** Three iterations of the backtest of [long] with the range 70..180
    and a 30-minute horizon: the first firing (index 15), the last step
    inside its cooldown (index 26) and the step 60 minutes after it
    (index 27). *)
Definition fired : Obs :=
  Eval vm_compute in nth 5 (steps long 70 180 30) noObs.
Definition quiet : Obs :=
  Eval vm_compute in nth 16 (steps long 70 180 30) noObs.
Definition refired : Obs :=
  Eval vm_compute in nth 17 (steps long 70 180 30) noObs.

(** The report of that backtest. *)
Definition longReport : Report :=
  Eval vm_compute in
    match backtest long 70 180 30 with Some r => r | None => zeroReport end.

End Examples.

(** More example series: a flat one at 150 mg/dL and one that rises
    from 100 to 175 mg/dL and stays there, both sampled every 5 minutes
    and inside 70..180. *)

Module QuietExamples.

Import Backtest.

Definition flat : list Sample := Examples.dip 30 40 50.

Definition ramp : list Sample :=
  map (fun k => mkSample (300000 * Z.of_nat k)
                  (if (k <=? 15)%nat then 100 + 5 * inject_Z (Z.of_nat k)
                   else 175)%Q)
      (seq 0 30).

Definition rampReport : Report :=
  Eval vm_compute in
    match backtest ramp 70 180 30 with Some r => r | None => zeroReport end.

End QuietExamples.

Import String.StringSyntax.
Delimit Scope string_scope with string.

(** ** Form inputs and preferences *)

Module Ui.

(** [Math.min] and [Math.max] of two numbers: NaN wins, then the
    infinity on the side asked for. *)
Definition js_min2 (a b : ext Q) : ext Q :=
  match a, b with
  | NaN, _ | _, NaN => NaN
  | NegInf, _ | _, NegInf => NegInf
  | PosInf, x | x, PosInf => x
  | Fin x, Fin y => Fin (Qmin x y)
  end.

Definition js_max2 (a b : ext Q) : ext Q :=
  match a, b with
  | NaN, _ | _, NaN => NaN
  | PosInf, _ | _, PosInf => PosInf
  | NegInf, x | x, NegInf => x
  | Fin x, Fin y => Fin (Qmax x y)
  end.

(** [a + q] and [a - q] for a finite [q]. *)
Definition js_add (a : ext Q) (q : Q) : ext Q :=
  match a with
  | Fin x => Fin (x + q)%Q
  | other => other
  end.

Definition js_sub (a : ext Q) (q : Q) : ext Q :=
  match a with
  | Fin x => Fin (x - q)%Q
  | other => other
  end.

(** [clampNumber(n, min, max)]; [None] is [null]. *)
Definition clampNumber (n min max : ext Q) : option (ext Q) :=
  match n with
  | NaN => None
  | _ => Some (js_max2 min (js_min2 max n))
  end.

(** [x ?? d] *)
Definition orElse (x : option (ext Q)) (d : Q) : ext Q :=
  match x with
  | Some v => v
  | None => Fin d
  end.

(** The target range of [getPrefs()], from [Number(ui.targetLow.value)]
    and [Number(ui.targetHigh.value)]: [(low, high)] of the result. *)
Definition targetRange (lowInput highInput : ext Q) : ext Q * ext Q :=
  let low := orElse (clampNumber lowInput (Fin 40) (Fin 300)) 70 in
  let high := orElse (clampNumber highInput (Fin 40) (Fin 400)) 180 in
  let fixedLow := js_min2 low (js_sub high 1) in
  let fixedHigh := js_max2 high (js_add fixedLow 1) in
  (fixedLow, fixedHigh).

(** [generateTestSet]'s arguments for [generateSyntheticSeries]. *)
Definition testSetArgs (daysInput pointsInput : ext Q) : ext Q * ext Q :=
  (orElse (clampNumber daysInput (Fin 7) (Fin 180)) 90,
   orElse (clampNumber pointsInput (Fin 100) (Fin 5000)) 500).

(** [!value] for [value] a number or [null]. *)
Definition falsy (v : option (ext Q)) : bool :=
  match v with
  | None => true
  | Some NaN => true
  | Some (Fin q) => Qeq_bool q 0
  | Some _ => false
  end.

(** [a < b] and [a > b] against a finite [b]. *)
Definition js_ltQ (a : ext Q) (b : Q) : bool :=
  match a with
  | Fin x => Qltb x b
  | NegInf => true
  | _ => false
  end.

Definition js_gtQ (a : ext Q) (b : Q) : bool :=
  match a with
  | Fin x => Qltb b x
  | PosInf => true
  | _ => false
  end.

Inductive FormError : Type := EnterGlucose | PickDate | Cancelled.

(** The record [readForm] builds: [{ value, context, dtIso, notes }]. *)
Record Entry : Type := mkEntry {
  eValue : ext Q;
  eContext : String.string;
  eDtIso : String.string;
  eNotes : String.string
}.

(** What a call of [readForm] ends in: [{ ok: false, msg }],
    [{ ok: true, record }], or the [RangeError] that [toISOString]
    throws on an invalid date. *)
Inductive FormResult : Type :=
| Rejected (msg : FormError)
| Accepted (record : Entry)
| RangeError.

Section Form.

(** [new Date(s).toISOString()], the platform's: [None] when [s] does
    not parse to a valid date, where the call throws [RangeError]. *)
Variable toISOString : String.string -> option String.string.
(** [s.trim()] *)
Variable trim : String.string -> String.string.

(** [readForm()], from the form's fields and the answer [confirm]
    gives when it is asked. *)
Definition readForm (glucose : ext Q) (context dtLocal notesInput : String.string)
    (confirmed : bool) : FormResult :=
  let value := clampNumber glucose (Fin 20) (Fin 600) in
  let notes := trim notesInput in
  if falsy value then Rejected EnterGlucose
  else if String.eqb dtLocal String.EmptyString then Rejected PickDate
  else
    let v := orElse value 0 in
    if (js_ltQ v 55 || js_gtQ v 350) && negb confirmed then Rejected Cancelled
    else
      match toISOString dtLocal with
      | Some dtIso => Accepted (mkEntry v context dtIso notes)
      | None => RangeError
      end.

End Form.

End Ui.

(** ** The log: records, statistics, filters and storage *)

Module Log.

Import String.StringSyntax.

(** A stored reading, [{ id, value, context, dtIso, notes }]. *)
Record Rec : Type := mkRec {
  id : String.string;
  value : Q;
  context : String.string;
  dtIso : String.string;
  notes : String.string
}.

(** [Array.prototype.sort(compare)]: the sort is stable, so for a
    consistent comparator its result is the one of any stable sort;
    here an element is inserted before the first one it does not
    exceed. *)
Section Sort.

Context {A : Type}.
Variable compare : A -> A -> Q.

Fixpoint insert (x : A) (l : list A) : list A :=
  match l with
  | [] => [x]
  | y :: l' =>
      if Qle_bool (compare x y) 0 then x :: y :: l' else y :: insert x l'
  end.

Definition sort (l : list A) : list A := fold_right insert [] l.

End Sort.

(** [mean(values)] *)
Definition mean (values : list Q) : option Q :=
  match values with
  | [] => None
  | _ => Some (fold_left Qplus values 0 / Backtest.ofNat (length values))%Q
  end.

(** [median(values)] *)
Definition median (values : list Q) : option Q :=
  match values with
  | [] => None
  | _ =>
      let sorted := sort (fun a b => a - b)%Q values in
      let mid := (length sorted / 2)%nat in
      Some (if (length sorted mod 2 =? 0)%nat
            then ((nth (mid - 1) sorted 0 + nth mid sorted 0) / 2)%Q
            else nth mid sorted 0%Q)
  end.

(** The variance [stdDev] takes the root of. *)
Definition variance (values : list Q) (m : Q) : Q :=
  (fold_left (fun acc v => acc + (v - m) ^ 2) values 0
   / Backtest.ofNat (length values))%Q.

(** [stdDev(values)]; the root is a real number. *)
Definition stdDev (values : list Q) : option R :=
  if (length values <? 2)%nat then None
  else
    match mean values with
    | Some m => Some (sqrt (Q2R (variance values m)))
    | None => None
    end.

Inductive Status : Type := LOW | HIGH | IN_RANGE.

(** [statusFor(value, low, high)] *)
Definition statusFor (v low high : Q) : Status :=
  if Qltb v low then LOW
  else if Qltb high v then HIGH
  else IN_RANGE.

Record Summary : Type := mkSummary {
  total : nat;
  tirPct : option Z;
  inRange : nat;
  lowCount : nat;
  highCount : nat;
  avg : option Q;
  med : option Q;
  sd : option R;
  fastingAvg : option Q;
  fastingCount : nat
}.

(** [computeSummary(records, low, high)] *)
Definition computeSummary (records : list Rec) (low high : Q) : Summary :=
  let values := map value records in
  let total := length values in
  let inRange :=
    length (filter (fun r => Qle_bool low (value r) && Qle_bool (value r) high)
              records) in
  let lowCount := length (filter (fun r => Qltb (value r) low) records) in
  let highCount := length (filter (fun r => Qltb high (value r)) records) in
  let tirPct :=
    if (total =? 0)%nat then None
    else Some (round (Backtest.ofNat inRange / Backtest.ofNat total * 100)%Q) in
  let fastingVals :=
    map value (filter (fun r => String.eqb (context r) "Fasting"%string) records) in
  mkSummary total tirPct inRange lowCount highCount
    (mean values) (median values) (stdDev values)
    (mean fastingVals) (length fastingVals).

Section Dates.

(** [new Date(dtIso).getTime()] for the stored dates, and
    [Date.now()]. *)
Variable getTime : String.string -> Z.
Variable dateNow : Z.

(** [withinDays(dtIso, days)] *)
Definition withinDays (dt : String.string) (days : Q) : bool :=
  if Qle_bool 99999 days then true
  else
    let t := getTime dt in
    let cutoff := (inject_Z dateNow - days * 24 * 60 * 60 * 1000)%Q in
    Qle_bool cutoff (inject_Z t).

(** [filterRecords(records, prefs)] with [prefs.days] and
    [prefs.ctxFilter]. *)
Definition filterRecords (records : list Rec) (days : Q)
    (ctxFilter : String.string) : list Rec :=
  filter (fun r => if String.eqb ctxFilter "ALL"%string then true
                   else String.eqb (context r) ctxFilter)
    (filter (fun r => withinDays (dtIso r) days) records).

(** [sortRecords(records, sortOrder)] *)
Definition sortRecords (records : list Rec) (sortOrder : String.string)
    : list Rec :=
  let dir := if String.eqb sortOrder "ASC"%string then 1%Z else (-1)%Z in
  sort (fun a b => inject_Z ((getTime (dtIso a) - getTime (dtIso b)) * dir))
    records.

End Dates.

(** What the CRUD actions work on: the stored array and the variable
    [lastDeleted]. *)
Record Store : Type := mkStore {
  records : list Rec;
  lastDeleted : option Rec
}.

(** [records.findIndex(r => r.id === id)]; [None] is [-1]. *)
Fixpoint findIndex (i : String.string) (l : list Rec) : option nat :=
  match l with
  | [] => None
  | r :: l' =>
      if String.eqb (id r) i then Some O
      else option_map S (findIndex i l')
  end.

(** [records[idx] = v] for an index in range. *)
Fixpoint setAt (idx : nat) (v : Rec) (l : list Rec) : list Rec :=
  match l, idx with
  | [], _ => []
  | _ :: l', O => v :: l'
  | r :: l', S k => r :: setAt k v l'
  end.

(** [records.splice(idx, 1)] *)
Fixpoint removeAt (idx : nat) (l : list Rec) : list Rec :=
  match l, idx with
  | [], _ => []
  | _ :: l', O => l'
  | r :: l', S k => r :: removeAt k l'
  end.

(** [{ ...r, ...patch }] for a patch [{ value, context, dtIso, notes }]
    with a finite value. *)
Definition patched (r : Rec) (v : Q) (c d n : String.string) : Rec :=
  mkRec (id r) v c d n.

(** [addRecord(record)], [newId] being what [uid()] returns. *)
Definition addRecord (newId : String.string) (v : Q) (c d n : String.string)
    (st : Store) : Store :=
  mkStore (records st ++ [mkRec newId v c d n]) (lastDeleted st).

(** [updateRecord(id, patch)] *)
Definition updateRecord (i : String.string) (v : Q) (c d n : String.string)
    (st : Store) : Store :=
  match findIndex i (records st) with
  | None => st
  | Some idx =>
      match nth_error (records st) idx with
      | Some r =>
          mkStore (setAt idx (patched r v c d n) (records st)) (lastDeleted st)
      | None => st
      end
  end.

(** [deleteRecord(id)] *)
Definition deleteRecord (i : String.string) (st : Store) : Store :=
  match findIndex i (records st) with
  | None => st
  | Some idx =>
      mkStore (removeAt idx (records st)) (nth_error (records st) idx)
  end.

(** [undoDelete()] *)
Definition undoDelete (st : Store) : Store :=
  match lastDeleted st with
  | None => st
  | Some r => mkStore (records st ++ [r]) None
  end.

End Log.

(** ** Escaping *)

Module Html.

Import String.StringSyntax Ascii.AsciiSyntax.

(** The four characters [escapeHtml] replaces. *)
Definition amp : Ascii.ascii := Ascii.ascii_of_nat 38.
Definition lt : Ascii.ascii := Ascii.ascii_of_nat 60.
Definition gt : Ascii.ascii := Ascii.ascii_of_nat 62.
Definition quot : Ascii.ascii := Ascii.ascii_of_nat 34.

(** [s.replaceAll(c, r)] for a one-character pattern. *)
Fixpoint replaceAll (c : Ascii.ascii) (r : String.string) (s : String.string)
    : String.string :=
  match s with
  | String.EmptyString => String.EmptyString
  | String.String x s' =>
      if Ascii.eqb x c then String.append r (replaceAll c r s')
      else String.String x (replaceAll c r s')
  end.

(** [escapeHtml(s)]; [None] is a missing or empty [s]. *)
Definition escapeHtml (s : option String.string) : String.string :=
  let s0 := match s with Some x => x | None => String.EmptyString end in
  replaceAll quot "&quot;"%string
    (replaceAll gt "&gt;"%string
       (replaceAll lt "&lt;"%string
          (replaceAll amp "&amp;"%string s0))).

End Html.

(** ** Facts about the number model *)

Import Backtest.

Lemma Qltb_lt (x y : Q) : Qltb x y = true <-> (x < y)%Q.
Proof.
  unfold Qltb. rewrite negb_true_iff. split; intro H.
  - apply Qnot_le_lt. intro Hle. apply Qle_bool_iff in Hle. congruence.
  - destruct (Qle_bool y x) eqn:E; [|reflexivity].
    apply Qle_bool_iff in E. exfalso. exact (Qlt_not_le _ _ H E).
Qed.

Lemma js_max_cases (n : Z) (x : ext Z) :
  (exists h, js_max n x = Fin h /\ (n <= h)%Z) \/
  js_max n x = PosInf \/ js_max n x = NaN.
Proof.
  destruct x as [z| | |]; simpl; auto.
  - left. exists (Z.max n z). split; [reflexivity|lia].
  - left. exists n. split; [reflexivity|lia].
Qed.

(** A quotient by a non-zero divisor is finite. *)
Lemma js_div_finite (a b : Q) : ~ (b == 0)%Q -> js_div a b = Fin (a / b)%Q.
Proof.
  intro Hb. unfold js_div. destruct (Qeq_bool b 0) eqn:E; [|reflexivity].
  apply Qeq_bool_iff in E. contradiction.
Qed.

(** ** The loop of the backtest *)

Section LoopFacts.

Variable series : list Sample.
Variables low high horizonMin : Q.

Local Abbreviation hs := (horizonSteps series horizonMin).
Local Abbreviation step h := (fun st i => body series low high horizonMin h i st).

Lemma horizonSteps_cases :
  (exists h, hs = Fin h /\ (1 <= h)%Z) \/ hs = PosInf \/ hs = NaN.
Proof. apply js_max_cases. Qed.

(** With a finite [horizonSteps] the loop visits 10, 11, ... as long as
    the guard holds, and the fuel [length series] outlasts the guard. *)
Lemma loop_finite (h : Z) :
  hs = Fin h -> (1 <= h)%Z ->
  forall fuel i st,
    (length series <= fuel + i)%nat ->
    loop series low high horizonMin fuel i st =
    fold_left (step h)
      (seq i (Z.to_nat (Z.of_nat (length series) - h) - i)) st.
Proof.
  intros Hh H1. induction fuel as [|fuel IH]; intros i st Hlen.
  - simpl. replace (Z.to_nat (Z.of_nat (length series) - h) - i)%nat with 0%nat by lia. reflexivity.
  - simpl. unfold guard, sliceSteps.  rewrite Hh. simpl.
    destruct (Z.ltb_spec (Z.of_nat i) (Z.of_nat (length series) - h)) as [Hlt|Hge].
    + rewrite IH by lia.
      replace (Z.to_nat (Z.of_nat (length series) - h) - i)%nat
        with (S (Z.to_nat (Z.of_nat (length series) - h) - S i)) by lia.
      reflexivity.
    + replace (Z.to_nat (Z.of_nat (length series) - h) - i)%nat with 0%nat by lia. reflexivity.
Qed.

(** With [Infinity] or NaN for [horizonSteps] the guard fails at once. *)
Lemma loop_nonfinite :
  hs = PosInf \/ hs = NaN ->
  forall fuel i st, loop series low high horizonMin fuel i st = st.
Proof.
  intros H fuel i st. destruct fuel; [reflexivity|]. simpl.
  unfold guard.  destruct H as [-> | ->]; reflexivity.
Qed.

Lemma fold_body_log (h : Z) (idxs : list nat) (st : Loop) :
  log (fold_left (step h) idxs st) =
  log st ++ observations series low high horizonMin h (pol st) idxs.
Proof.
  revert st. induction idxs as [|i idxs IH]; intro st;
    cbn [fold_left observations].
  - now rewrite app_nil_r.
  - rewrite IH. unfold body.
    destruct (observe series low high horizonMin h (pol st) i) as [p1 o].
    cbn [log pol]. now rewrite <- app_assoc.
Qed.


Lemma observations_index (h : Z) (idxs : list nat) (p : Policy) :
  map index (observations series low high horizonMin h p idxs) = idxs.
Proof.
  revert p. induction idxs as [|i idxs IH]; intro p;
    cbn [observations]; [reflexivity|].
  destruct (observe series low high horizonMin h p i) as [p1 o] eqn:E.
  cbn [map]. rewrite IH. f_equal.
  unfold observe in E.
  destruct (improvedStep _ _ _ _ _ _) as [p2 [[n c] f]].
  injection E as _ <-. reflexivity.
Qed.

(** The log of a run, as a function of the evaluated indices. *)
Lemma run_log (st : Loop) :
  run series low high horizonMin = Some st ->
  log st =
  observations series low high horizonMin
    (sliceSteps series horizonMin) (mkPolicy NONE 0 0)
    (Spec.evaluated series horizonMin).
Proof.
  unfold run. destruct (length series <? 20)%nat; [discriminate|].
  intro H. injection H as <-.
  unfold Spec.evaluated, sliceSteps. 
  destruct horizonSteps_cases as [(h & Hh & H1) | Hn].
  - rewrite Hh. rewrite (loop_finite h Hh H1) by lia.
    rewrite fold_body_log. reflexivity.
  - rewrite loop_nonfinite by exact Hn.
    destruct Hn as [-> | ->]; reflexivity.
Qed.

Lemma steps_observations :
  steps series low high horizonMin =
  match run series low high horizonMin with
  | Some _ =>
      observations series low high horizonMin
        (sliceSteps series horizonMin) (mkPolicy NONE 0 0)
        (Spec.evaluated series horizonMin)
  | None => []
  end.
Proof.
  unfold steps. destruct (run series low high horizonMin) as [st|] eqn:E.
  - now apply run_log.
  - reflexivity.
Qed.

(** One iteration, seen from the improved policy. *)
Lemma observe_policy (h : Z) (p p1 : Policy) (i : nat) (o : Obs) :
  observe series low high horizonMin h p i = (p1, o) ->
  index o = i /\
  nowMs o = tMs (at_ series i) /\
  persistAfter o =
    (if Risk_eqb (rawRisk o) NONE then 0 else S (persist p))%nat /\
  inCooldown o = (nowMs o <? cooldownUntilMs p)%Z /\
  impAlert o =
    negb (inCooldown o) && negb (Risk_eqb (rawRisk o) NONE)
    && (2 <=? persistAfter o)%nat /\
  persist p1 = persistAfter o /\
  cooldownUntilMs p1 =
    (if impAlert o then nowMs o + 60 * 60000 else cooldownUntilMs p)%Z.
Proof.
  unfold observe, improvedStep. intro H. injection H as <- <-. cbn.
  repeat split.
  - destruct (Risk_eqb _ NONE), (Risk_eqb _ (active p)); cbn; lia.
Qed.

End LoopFacts.

(** ** The improved policy along a run *)

Lemma firstn_succ {A} (l : list A) (a : nat) (x : A) :
  nth_error l a = Some x -> firstn (S a) l = firstn a l ++ [x].
Proof.
  revert a. induction l as [|y l IH]; intros [|a] H; try discriminate.
  - injection H as ->. reflexivity.
  - cbn [firstn app]. f_equal. now apply IH.
Qed.

Section PolicyFacts.

Variable series : list Sample.
Variables low high horizonMin : Q.
Variable h : Z.

Local Abbreviation obs := (observations series low high horizonMin h).
Local Abbreviation after := (policyAfter series low high horizonMin h).
Local Abbreviation look := (observe series low high horizonMin h).

Lemma policyAfter_app (l1 l2 : list nat) (p : Policy) :
  after p (l1 ++ l2) = after (after p l1) l2.
Proof.
  revert p. induction l1 as [|i l1 IH]; intro p; cbn [app policyAfter];
    [reflexivity | apply IH].
Qed.


(** The [a]-th logged iteration is [observe] at the [a]-th index, from
    the policy state the iterations before it left. *)
Lemma observations_nth (idxs : list nat) (p : Policy) (a : nat) (o : Obs) :
  nth_error (obs p idxs) a = Some o ->
  exists i,
    nth_error idxs a = Some i /\
    look (after p (firstn a idxs)) i = (after p (firstn (S a) idxs), o).
Proof.
  revert p a. induction idxs as [|j idxs IH]; intros p a H.
  - destruct a; discriminate.
  - cbn [observations] in H. destruct (look p j) as [p1 o1] eqn:E.
    destruct a as [|a].
    + injection H as <-. exists j. split; [reflexivity|].
      cbn [firstn policyAfter]. now rewrite E.
    + cbn [nth_error] in H. destruct (IH _ _ H) as (i & Hi & Ho).
      exists i. split; [exact Hi|].
      cbn [firstn policyAfter]. rewrite E. exact Ho.
Qed.


(** The cooldown deadline never moves back. *)
Lemma cooldown_step (p p1 : Policy) (i : nat) (o : Obs) :
  look p i = (p1, o) -> (cooldownUntilMs p <= cooldownUntilMs p1)%Z.
Proof.
  intro E. apply observe_policy in E as (_ & _ & _ & Hc & Hf & _ & ->).
  destruct (impAlert o); [|lia].
  rewrite Hc in Hf. destruct (Z.ltb_spec (nowMs o) (cooldownUntilMs p));
    [discriminate | lia].
Qed.

Lemma cooldown_monotone (idxs : list nat) (p : Policy) :
  (cooldownUntilMs p <= cooldownUntilMs (after p idxs))%Z.
Proof.
  revert p. induction idxs as [|i idxs IH]; intro p; cbn [policyAfter]; [lia|].
  destruct (look p i) as [p1 o] eqn:E. cbn [fst].
  pose proof (cooldown_step _ _ _ _ E). specialize (IH p1). lia.
Qed.

(** Firing needs a risk, a counter of at least 2 and no cooldown. *)
Lemma fire_needs (idxs : list nat) (p : Policy) (a : nat) (o : Obs) :
  nth_error (obs p idxs) a = Some o -> impAlert o = true ->
  rawRisk o <> NONE /\ (2 <= persistAfter o)%nat /\ inCooldown o = false.
Proof.
  intros H Hf. destruct (observations_nth _ _ _ _ H) as (i & _ & E).
  apply observe_policy in E as (_ & _ & _ & _ & Hi & _).
  rewrite Hf in Hi. symmetry in Hi.
  apply andb_true_iff in Hi as [Hi H2]. apply andb_true_iff in Hi as [Hc Hr].
  repeat split.
  - intro Hn. rewrite Hn in Hr. discriminate.
  - now apply Nat.leb_le.
  - now apply negb_true_iff.
Qed.

(** The counter after an iteration, from the counter before it. *)
Lemma persist_first (idxs : list nat) (p : Policy) (o : Obs) :
  nth_error (obs p idxs) 0 = Some o ->
  persistAfter o = (if Risk_eqb (rawRisk o) NONE then 0 else S (persist p))%nat.
Proof.
  intro H. destruct (observations_nth _ _ _ _ H) as (i & _ & E).
  cbn [firstn policyAfter] in E. now apply observe_policy in E.
Qed.

Lemma persist_next (idxs : list nat) (p : Policy) (a : nat) (oa ob : Obs) :
  nth_error (obs p idxs) a = Some oa ->
  nth_error (obs p idxs) (S a) = Some ob ->
  persistAfter ob =
    (if Risk_eqb (rawRisk ob) NONE then 0 else S (persistAfter oa))%nat.
Proof.
  intros Ha Hb.
  destruct (observations_nth _ _ _ _ Ha) as (i & _ & Ea).
  destruct (observations_nth _ _ _ _ Hb) as (j & _ & Eb).
  apply observe_policy in Ea as (_ & _ & _ & _ & _ & Hp & _).
  apply observe_policy in Eb as (_ & _ & Hq & _).
  now rewrite Hq, Hp.
Qed.

(** After a firing at position [a], the deadline seen at any later
    position is at least 60 minutes after it. *)
Lemma deadline_after_fire (idxs : list nat) (p : Policy) (a b : nat)
    (oa ob : Obs) :
  nth_error (obs p idxs) a = Some oa ->
  nth_error (obs p idxs) b = Some ob ->
  (a < b)%nat -> impAlert oa = true ->
  (nowMs oa + 60 * 60000 <= cooldownUntilMs (after p (firstn b idxs)))%Z.
Proof.
  intros Ha Hb Hab Hf.
  destruct (observations_nth _ _ _ _ Ha) as (i & Hi & Ea).
  apply observe_policy in Ea as (_ & _ & _ & _ & _ & _ & Hc).
  rewrite Hf in Hc. rewrite <- Hc.
  replace (firstn b idxs)
    with (firstn (S a) idxs ++ skipn (S a) (firstn b idxs)).
  - rewrite policyAfter_app. apply cooldown_monotone.
  - rewrite <- (firstn_skipn (S a) (firstn b idxs)) at 2.
    rewrite firstn_firstn. now replace (Nat.min (S a) b) with (S a) by lia.
Qed.

Lemma quiet_in_cooldown (idxs : list nat) (p : Policy) (a b : nat)
    (oa ob : Obs) :
  nth_error (obs p idxs) a = Some oa ->
  nth_error (obs p idxs) b = Some ob ->
  (a < b)%nat -> impAlert oa = true ->
  (nowMs ob < nowMs oa + 60 * 60000)%Z ->
  impAlert ob = false.
Proof.
  intros Ha Hb Hab Hf Hlt.
  pose proof (deadline_after_fire _ _ _ _ _ _ Ha Hb Hab Hf) as Hd.
  destruct (observations_nth _ _ _ _ Hb) as (j & _ & Eb).
  apply observe_policy in Eb as (_ & _ & _ & Hc & Hi & _).
  rewrite Hi, Hc.
  destruct (Z.ltb_spec (nowMs ob) (cooldownUntilMs (after p (firstn b idxs))));
    [reflexivity | lia].
Qed.

End PolicyFacts.

Section Cooldown.

Variable series : list Sample.
Variables low high horizonMin : Q.
Variable h : Z.

Local Abbreviation obs := (observations series low high horizonMin h).
Local Abbreviation after := (policyAfter series low high horizonMin h).

(** While every iteration after a firing is at risk and inside the
    cooldown, the deadline stays and the counter keeps counting. *)
Lemma held_through_cooldown (idxs : list nat) (p : Policy) (a b : nat)
    (oa ob : Obs) :
  nth_error (obs p idxs) a = Some oa ->
  nth_error (obs p idxs) b = Some ob ->
  (a < b)%nat -> impAlert oa = true ->
  (forall k o, (a < k < b)%nat -> nth_error (obs p idxs) k = Some o ->
               rawRisk o <> NONE /\ (nowMs o < nowMs oa + 60 * 60000)%Z) ->
  forall d, (a + 1 + d <= b)%nat ->
    cooldownUntilMs (after p (firstn (a + 1 + d) idxs))
      = (nowMs oa + 60 * 60000)%Z /\
    persist (after p (firstn (a + 1 + d) idxs)) = (persistAfter oa + d)%nat.
Proof.
  intros Ha Hb Hab Hf Hmid. induction d as [|d IH]; intro Hd.
  - replace (a + 1 + 0)%nat with (S a) by lia.
    destruct (observations_nth _ _ _ _ _ _ _ _ _ Ha) as (i & _ & E).
    apply observe_policy in E as (_ & _ & _ & _ & _ & Hp & Hc).
    rewrite Hf in Hc. split; [exact Hc | lia].
  - destruct IH as [IHc IHp]; [lia|].
    assert (Hk : (a + 1 + d < length (obs p idxs))%nat).
    { apply Nat.lt_trans with b; [lia|].
      apply nth_error_Some. congruence. }
    destruct (nth_error (obs p idxs) (a + 1 + d)) as [o|] eqn:Ho;
      [|apply nth_error_None in Ho; lia].
    destruct (Hmid (a + 1 + d)%nat o ltac:(lia) Ho) as [Hr Ht].
    destruct (observations_nth _ _ _ _ _ _ _ _ _ Ho) as (i & _ & E).
    apply observe_policy in E as (_ & _ & Hq & Hin & Hi & Hp & Hc).
    replace (a + 1 + S d)%nat with (S (a + 1 + d)) by lia.
    rewrite IHc in Hin.
    assert (Hcool : inCooldown o = true).
    { rewrite Hin. apply Z.ltb_lt. exact Ht. }
    rewrite Hcool in Hi. cbn in Hi. rewrite Hi in Hc.
    split; [now rewrite Hc|].
    rewrite Hp, Hq, IHp.
    destruct (rawRisk o); [contradiction | cbn; lia | cbn; lia].
Qed.

Lemma refire (idxs : list nat) (p : Policy) (a b : nat) (oa ob : Obs) :
  nth_error (obs p idxs) a = Some oa ->
  nth_error (obs p idxs) b = Some ob ->
  (a < b)%nat -> impAlert oa = true ->
  (forall k o, (a < k < b)%nat -> nth_error (obs p idxs) k = Some o ->
               rawRisk o <> NONE /\ (nowMs o < nowMs oa + 60 * 60000)%Z) ->
  rawRisk ob <> NONE ->
  (nowMs oa + 60 * 60000 <= nowMs ob)%Z ->
  impAlert ob = true /\ inCooldown ob = false /\
  persistAfter ob = (persistAfter oa + (b - a))%nat.
Proof.
  intros Ha Hb Hab Hf Hmid Hr Ht.
  destruct (held_through_cooldown _ _ _ _ _ _ Ha Hb Hab Hf Hmid (b - a - 1))
    as [Hc Hp]; [lia|].
  replace (a + 1 + (b - a - 1))%nat with b in Hc, Hp by lia.
  destruct (observations_nth _ _ _ _ _ _ _ _ _ Hb) as (i & _ & E).
  apply observe_policy in E as (_ & _ & Hq & Hin & Hi & _).
  rewrite Hc in Hin. rewrite Hp in Hq.
  assert (Hcool : inCooldown ob = false).
  { rewrite Hin. apply Z.ltb_ge. exact Ht. }
  assert (Hper : persistAfter ob = (persistAfter oa + (b - a))%nat).
  { rewrite Hq. destruct (rawRisk ob); [contradiction | cbn; lia | cbn; lia]. }
  assert (H2 : (2 <=? persistAfter ob)%nat = true).
  { destruct (fire_needs _ _ _ _ _ _ _ _ _ Ha Hf) as (_ & Hge & _).
    apply Nat.leb_le. lia. }
  repeat split; try assumption.
  rewrite Hi, Hcool, H2.
  destruct (rawRisk ob); [contradiction | reflexivity | reflexivity].
Qed.

End Cooldown.

(** Every run's log is the log of some list of indices from the initial
    policy state. *)
Lemma steps_shape (series : list Sample) (low high horizonMin : Q) :
  exists h idxs,
    steps series low high horizonMin =
    observations series low high horizonMin h (mkPolicy NONE 0 0) idxs.
Proof.
  rewrite steps_observations.
  destruct (run series low high horizonMin).
  - eauto.
  - exists 0%Z, []. reflexivity.
Qed.

(** ** The improved policy: cooldown and persistence *)

(** C1.  Once the improved policy fires at a step with timestamp [t], it
    fires at no later evaluated step whose timestamp is below
    [t + 60 min], whatever the raw risk is there. *)
Theorem improved_cooldown (series : list Sample) (low high horizonMin : Q)
    (a b : nat) (oa ob : Obs) :
  nth_error (steps series low high horizonMin) a = Some oa ->
  nth_error (steps series low high horizonMin) b = Some ob ->
  (a < b)%nat ->
  impAlert oa = true ->
  (nowMs ob < nowMs oa + 60 * 60000)%Z ->
  impAlert ob = false.
Proof.
  destruct (steps_shape series low high horizonMin) as (h & idxs & ->).
  apply quiet_in_cooldown.
Qed.

(** On the example series the policy fires at index 15 and, 55 minutes
    later and still at risk, stays silent at index 26. *)
Lemma improved_cooldown_witness :
  rawRisk Examples.quiet = HYPO /\ impAlert Examples.quiet = false.
Proof.
  split; [reflexivity|].
  apply (improved_cooldown Examples.long 70 180 30 5 16
           Examples.fired Examples.quiet).
  - vm_compute. reflexivity.
  - vm_compute. reflexivity.
  - lia.
  - reflexivity.
  - vm_compute. reflexivity.
Defined.

(** C2.  The improved policy never fires when the raw risk is NONE at
    every evaluated step, never at the first evaluated step, and never at
    a step that follows a NONE step; a firing needs the persistence
    counter at 2 or more, and the counter is 0 after a NONE step and one
    more than before after any other. *)
Theorem persistence_gate (series : list Sample) (low high horizonMin : Q) :
  let run := steps series low high horizonMin in
  ((forall o, In o run -> rawRisk o = NONE) ->
   forall o, In o run -> impAlert o = false) /\
  (forall o, nth_error run 0 = Some o -> impAlert o = false) /\
  (forall a oa ob,
     nth_error run a = Some oa -> nth_error run (S a) = Some ob ->
     rawRisk oa = NONE -> impAlert ob = false) /\
  (forall o, In o run -> impAlert o = true -> (2 <= persistAfter o)%nat) /\
  (forall o, nth_error run 0 = Some o ->
     persistAfter o = if Risk_eqb (rawRisk o) NONE then 0%nat else 1%nat) /\
  (forall a oa ob,
     nth_error run a = Some oa -> nth_error run (S a) = Some ob ->
     persistAfter ob =
       if Risk_eqb (rawRisk ob) NONE then 0%nat else S (persistAfter oa)).
Proof.
  destruct (steps_shape series low high horizonMin) as (h & idxs & ->).
  cbv zeta.
  set (run := observations series low high horizonMin h (mkPolicy NONE 0 0) idxs).
  assert (Hneeds : forall o, In o run -> impAlert o = true ->
            rawRisk o <> NONE /\ (2 <= persistAfter o)%nat).
  { intros o Hin Hf. apply In_nth_error in Hin as [a Ha].
    destruct (fire_needs _ _ _ _ _ _ _ _ _ Ha Hf) as (Hr & H2 & _). auto. }
  assert (Hfirst : forall o, nth_error run 0 = Some o ->
            persistAfter o = if Risk_eqb (rawRisk o) NONE then 0%nat else 1%nat).
  { intros o Ho. apply (persist_first _ _ _ _ _ _ _ _ Ho). }
  assert (Hnext : forall a oa ob,
            nth_error run a = Some oa -> nth_error run (S a) = Some ob ->
            persistAfter ob =
              if Risk_eqb (rawRisk ob) NONE then 0%nat else S (persistAfter oa)).
  { intros a oa ob Ha Hb. apply (persist_next _ _ _ _ _ _ _ _ _ _ Ha Hb). }
  repeat split; try assumption.
  - intros Hnone o Hin. destruct (impAlert o) eqn:Hf; [|reflexivity].
    destruct (Hneeds o Hin Hf) as [Hr _]. now specialize (Hnone o Hin).
  - intros o Ho. destruct (impAlert o) eqn:Hf; [|reflexivity].
    destruct (Hneeds o (nth_error_In _ _ Ho) Hf) as [_ H2].
    rewrite (Hfirst o Ho) in H2. destruct (Risk_eqb _ _); lia.
  - intros a oa ob Ha Hb Hr. destruct (impAlert ob) eqn:Hf; [|reflexivity].
    destruct (Hneeds ob (nth_error_In _ _ Hb) Hf) as [_ H2].
    rewrite (Hnext a oa ob Ha Hb) in H2.
    pose proof (Hneeds oa (nth_error_In _ _ Ha)) as Hoa.
    assert (Hpa : persistAfter oa = 0%nat).
    { destruct a as [|a].
      - rewrite (Hfirst oa Ha), Hr. reflexivity.
      - destruct (nth_error run a) as [o'|] eqn:Ho'.
        + rewrite (Hnext a o' oa Ho' Ha), Hr. reflexivity.
        + apply nth_error_None in Ho'.
          assert (S a < length run)%nat by (apply nth_error_Some; congruence).
          lia. }
    rewrite Hpa in H2. destruct (Risk_eqb _ _); lia.
  - intros o Hin Hf. now destruct (Hneeds o Hin Hf).
Qed.

(** On the example series the raw risk appears at index 14, where the
    policy stays silent, and persists at index 15, where it fires. *)
Example long_fires_on_second_risk :
  map (fun o => (index o, rawRisk o, persistAfter o, impAlert o))
      (firstn 3 (skipn 3 (steps Examples.long 70 180 30))) =
  [(13, NONE, 0, false); (14, HYPO, 1, false); (15, HYPO, 2, true)]%nat.
Proof. vm_compute. reflexivity. Qed.

(** C10.  Firing does not reset the persistence counter and the cooldown
    test is strict: when the raw risk stays non-NONE from a firing up to
    the first evaluated step at or past 60 minutes after it, the policy
    fires again at that step, with the counter still counting from
    before the firing. *)
Theorem refire_at_cooldown_end (series : list Sample)
    (low high horizonMin : Q) (a b : nat) (oa ob : Obs) :
  nth_error (steps series low high horizonMin) a = Some oa ->
  nth_error (steps series low high horizonMin) b = Some ob ->
  (a < b)%nat ->
  impAlert oa = true ->
  (forall k o, (a < k <= b)%nat ->
     nth_error (steps series low high horizonMin) k = Some o ->
     rawRisk o <> NONE) ->
  (forall k o, (a < k < b)%nat ->
     nth_error (steps series low high horizonMin) k = Some o ->
     (nowMs o < nowMs oa + 60 * 60000)%Z) ->
  (nowMs oa + 60 * 60000 <= nowMs ob)%Z ->
  impAlert ob = true /\ inCooldown ob = false /\
  persistAfter ob = (persistAfter oa + (b - a))%nat.
Proof.
  destruct (steps_shape series low high horizonMin) as (h & idxs & ->).
  intros Ha Hb Hab Hf Hrisk Hmid Ht.
  apply (refire _ _ _ _ _ _ _ _ _ _ _ Ha Hb Hab Hf).
  - intros k o Hk Ho. split; [apply (Hrisk k o); [lia | exact Ho]|].
    now apply (Hmid k o).
  - apply (Hrisk b ob); [lia | exact Hb].
  - exact Ht.
Qed.

(** Settles a fact about the [k]-th step of a concrete run, [k] being
    bounded by [Hk], by looking at each step in turn. *)
Ltac each_step k Hk H :=
  do 18 (destruct k as [|k];
         [ try lia;
           vm_compute in H; injection H as <-;
           first [ discriminate | vm_compute; reflexivity ]
         | ]);
  lia.

(** On the example series the risk lasts from the firing at index 15
    until index 27, exactly 60 minutes later, where the policy fires
    again. *)
Lemma refire_at_cooldown_end_witness :
  impAlert Examples.refired = true /\
  inCooldown Examples.refired = false /\
  persistAfter Examples.refired = (persistAfter Examples.fired + (17 - 5))%nat.
Proof.
  apply (refire_at_cooldown_end Examples.long 70 180 30 5 17
           Examples.fired Examples.refired).
  - vm_compute. reflexivity.
  - vm_compute. reflexivity.
  - lia.
  - reflexivity.
  - intros k o Hk H. each_step k Hk H.
  - intros k o Hk H. each_step k Hk H.
  - vm_compute. discriminate.
Defined.

(** ** The evaluator: indices, labels and counters *)

Lemma count_cons (f : Obs -> bool) (o : Obs) (l : list Obs) :
  count f (o :: l) = ((if f o then 1 else 0) + count f l)%nat.
Proof. unfold count. cbn [filter]. destruct (f o); reflexivity. Qed.

Lemma tally_counts (alert event : bool) (c : Counts) :
  TP (tally alert event c) = (TP c + if alert && event then 1 else 0)%nat /\
  FP (tally alert event c) = (FP c + if alert && negb event then 1 else 0)%nat /\
  FN (tally alert event c) = (FN c + if negb alert && event then 1 else 0)%nat.
Proof. destruct alert, event; cbn; repeat split; lia. Qed.

(** [series.slice(a, a + n)] holds the samples at [a .. a + n - 1] that
    exist. *)
Lemma existsb_slice (f : Sample -> bool) (l : list Sample) (a n : nat) :
  existsb f (firstn n (skipn a l)) = true <->
  exists k, (a <= k < a + n)%nat /\ (k < length l)%nat /\ f (at_ l k) = true.
Proof.
  rewrite existsb_exists. split.
  - intros (x & Hin & Hf).
    destruct (In_nth _ _ noSample Hin) as (j & Hj & Hx).
    rewrite length_firstn, length_skipn in Hj.
    rewrite nth_firstn in Hx.
    destruct (Nat.ltb_spec j n) as [Hjn|Hjn]; [|lia].
    rewrite nth_skipn in Hx.
    exists (a + j)%nat. unfold at_. rewrite Hx. repeat split; try lia. exact Hf.
  - intros (k & Hk & Hlen & Hf).
    exists (at_ l k). split; [|exact Hf].
    replace (at_ l k) with (nth (k - a) (firstn n (skipn a l)) noSample).
    + apply nth_In. rewrite length_firstn, length_skipn. lia.
    + rewrite nth_firstn.
      destruct (Nat.ltb_spec (k - a) n) as [_|Hge]; [|lia].
      rewrite nth_skipn. unfold at_. f_equal. lia.
Qed.

Section Evaluator.

Variable series : list Sample.
Variables low high horizonMin : Q.

Local Abbreviation hs := (horizonSteps series horizonMin).
Local Abbreviation step h := (fun st i => body series low high horizonMin h i st).
Local Abbreviation obs := (observations series low high horizonMin).
Local Abbreviation look := (observe series low high horizonMin).

Lemma run_fold :
  run series low high horizonMin =
  if (length series <? 20)%nat then None
  else Some (fold_left (step (sliceSteps series horizonMin))
               (Spec.evaluated series horizonMin) initial).
Proof.
  unfold run. destruct (length series <? 20)%nat eqn:E; [reflexivity|].
  apply Nat.ltb_ge in E. f_equal.
  unfold Spec.evaluated, sliceSteps.
  destruct (horizonSteps_cases series horizonMin) as [(h & Hh & H1) | Hn].
  - rewrite Hh. rewrite (loop_finite series low high horizonMin h Hh H1) by lia.
    reflexivity.
  - rewrite loop_nonfinite by exact Hn.
    destruct Hn as [-> | ->]; reflexivity.
Qed.

(** The evaluated indices lie between the lead-in and the trailing
    window. *)
Lemma evaluated_bounds (i : nat) :
  In i (Spec.evaluated series horizonMin) ->
  exists h, hs = Fin h /\ (1 <= h)%Z /\ (10 <= i)%nat /\
            (Z.of_nat i + h < Z.of_nat (length series))%Z.
Proof.
  unfold Spec.evaluated, Spec.range.
  destruct (horizonSteps_cases series horizonMin) as [(h & Hh & H1) | [Hn|Hn]];
    rewrite ?Hh, ?Hn; try contradiction.
  intro Hin. apply in_seq in Hin. exists h. repeat split; lia.
Qed.

(** Every sample the loop body reads at an evaluated index exists. *)
Lemma evaluated_reads_in_range (i : nat) :
  In i (Spec.evaluated series horizonMin) ->
  (i < length series)%nat /\ (2 <= i)%nat /\
  (Z.to_nat (Z.max 0 (Z.of_nat i - 6 + 1)) < length series)%nat /\
  (i + 1 + Z.to_nat (sliceSteps series horizonMin) <= length series)%nat.
Proof.
  intro Hin. destruct (evaluated_bounds i Hin) as (h & Hh & H1 & H10 & Hlt).
  unfold sliceSteps. rewrite Hh. repeat split; lia.
Qed.

Lemma observations_Forall (P : Obs -> Prop) (h : Z) (idxs : list nat)
    (p : Policy) :
  (forall i q, In i idxs -> P (snd (look h q i))) ->
  Forall P (obs h p idxs).
Proof.
  revert p. induction idxs as [|i idxs IH]; intros p H; cbn [observations].
  - constructor.
  - destruct (look h p i) as [p1 o] eqn:E. constructor.
    + specialize (H i p (or_introl eq_refl)). now rewrite E in H.
    + apply IH. intros j q Hj. apply H. now right.
Qed.

(** What one iteration logs besides the improved decision. *)
Lemma observe_labels (h : Z) (p : Policy) (i : nat) :
  let o := snd (look h p i) in
  index o = i /\
  trueHypo o = existsb (fun q => Qltb (bg q) low) (future series h i) /\
  trueHyper o = existsb (fun q => Qltb high (bg q)) (future series h i) /\
  trueEvent o = trueHypo o || trueHyper o /\
  baseHypoAlert o =
    Qltb (bg (at_ series i)) low || Qltb (projectedBg series horizonMin i) low /\
  baseHyperAlert o =
    Qltb high (bg (at_ series i)) || Qltb high (projectedBg series horizonMin i) /\
  baseAlert o = baseHypoAlert o || baseHyperAlert o /\
  rawRisk o = rawRiskAt series low high horizonMin i.
Proof. unfold observe, improvedStep. cbn. repeat split. Qed.

(** The counters are the numbers of logged iterations of each kind. *)
Lemma fold_counts (h : Z) (idxs : list nat) (st : Loop) :
  let st' := fold_left (step h) idxs st in
  let l := obs h (pol st) idxs in
  TP (baseC st') = (TP (baseC st) + count (fun o => baseAlert o && trueEvent o) l)%nat /\
  FP (baseC st') = (FP (baseC st) + count (fun o => baseAlert o && negb (trueEvent o)) l)%nat /\
  FN (baseC st') = (FN (baseC st) + count (fun o => negb (baseAlert o) && trueEvent o) l)%nat /\
  TP (impC st') = (TP (impC st) + count (fun o => impAlert o && trueEvent o) l)%nat /\
  FP (impC st') = (FP (impC st) + count (fun o => impAlert o && negb (trueEvent o)) l)%nat /\
  FN (impC st') = (FN (impC st) + count (fun o => negb (impAlert o) && trueEvent o) l)%nat.
Proof.
  revert st. induction idxs as [|i idxs IH]; intro st;
    cbn [fold_left observations]; cbv zeta.
  - unfold count. cbn. repeat split; lia.
  - specialize (IH (body series low high horizonMin h i st)).
    cbv zeta in IH.
    assert (Hst : exists bc ic p1 o lg,
              look h (pol st) i = (p1, o) /\
              body series low high horizonMin h i st = mkLoop bc ic p1 lg /\
              bc = tally (baseAlert o) (trueEvent o) (baseC st) /\
              ic = tally (impAlert o) (trueEvent o) (impC st)).
    { unfold body. destruct (look h (pol st) i) as [p1 o]. eauto 10. }
    destruct Hst as (bc & ic & p1 & o & lg & E & Hb & -> & ->).
    rewrite Hb in *. rewrite E. cbn [baseC impC pol] in IH.
    rewrite !count_cons.
    destruct (tally_counts (baseAlert o) (trueEvent o) (baseC st)) as (B1 & B2 & B3).
    destruct (tally_counts (impAlert o) (trueEvent o) (impC st)) as (I1 & I2 & I3).
    destruct IH as (H1 & H2 & H3 & H4 & H5 & H6).
    rewrite H1, H2, H3, H4, H5, H6, B1, B2, B3, I1, I2, I3.
    repeat split; lia.
Qed.

End Evaluator.

(** ** The evaluator: failure, baseline, labels, range and metrics *)

(** C3, as the code has it.  The evaluator returns its failure result
    exactly when the series has fewer than 20 samples; with 20 samples or
    more and [length - horizonSteps <= 10] (or a non-finite
    [horizonSteps]) it returns the report of a loop that never ran. *)
Theorem insufficient_data (series : list Sample) (low high horizonMin : Q) :
  (backtest series low high horizonMin = None <-> (length series < 20)%nat) /\
  ((20 <= length series)%nat /\ Spec.insufficient series horizonMin ->
   backtest series low high horizonMin = Some zeroReport /\
   steps series low high horizonMin = []).
Proof.
  unfold backtest, steps. rewrite run_fold. split.
  - destruct (Nat.ltb_spec (length series) 20); cbn; split;
      intros; try discriminate; try lia; reflexivity.
  - intros [Hlen [Hlt | Hins]]; [lia|].
    destruct (Nat.ltb_spec (length series) 20); [lia|].
    assert (E : Spec.evaluated series horizonMin = []).
    { unfold Spec.evaluated, Spec.range.
      destruct (horizonSteps series horizonMin) as [h| | |]; try reflexivity.
      replace (Z.to_nat (Z.of_nat (length series) - h) - 10)%nat with 0%nat
        by lia.
      reflexivity. }
    rewrite E. split; reflexivity.
Qed.

(** C3, as stated, fails: 20 samples five minutes apart and a 60-minute
    horizon give 12 horizon steps, so [length - horizonSteps = 8 <= 10],
    and the evaluator returns a report with all its counts 0. *)
Lemma insufficient_data_counterexample :
  horizonSteps Examples.short 60 = Fin 12%Z /\
  backtest Examples.short 70 180 60 = Some zeroReport /\
  ~ (backtest Examples.short 70 180 60 = None <->
     Spec.insufficient Examples.short 60).
Proof.
  split; [vm_compute; reflexivity|].
  split; [vm_compute; reflexivity|].
  intros [_ H].
  assert (Hins : Spec.insufficient Examples.short 60).
  { right. vm_compute. discriminate. }
  specialize (H Hins). vm_compute in H. discriminate.
Qed.

Lemma slope_agrees (series : list Sample) (i : nat) :
  slopePerMin series i 6 = Spec.slope series i.
Proof.
  unfold slopePerMin, Spec.slope.
  replace (Z.to_nat (Z.max 0 (Z.of_nat i - 6 + 1))) with (Nat.max 0 (i - 5))
    by lia.
  reflexivity.
Qed.

(** With 20 samples or more the loop logs one step for each evaluated
    index, in order. *)
Lemma steps_evaluated (series : list Sample) (low high horizonMin : Q) :
  (20 <= length series)%nat ->
  map index (steps series low high horizonMin) =
  Spec.evaluated series horizonMin.
Proof.
  intro Hlen. rewrite steps_observations. unfold run.
  destruct (Nat.ltb_spec (length series) 20); [lia|].
  apply observations_index.
Qed.

(** C4.  At every evaluated index the baseline decision is the stateless
    computation of the specification: the slope over the trailing
    6-sample window clamped at index 0 (0 when no time elapsed), the
    projection over the horizon, HYPO when the reading or the projection
    is below [low], HYPER when one of them is above [high].  The loop
    takes one such decision for each evaluated index, in order. *)
Theorem baseline_stateless (series : list Sample) (low high horizonMin : Q) :
  (forall i, slopePerMin series i 6 = Spec.slope series i) /\
  (forall i, projectedBg series horizonMin i = Spec.projected series horizonMin i) /\
  ((20 <= length series)%nat ->
   map index (steps series low high horizonMin) =
   Spec.evaluated series horizonMin) /\
  ((20 <= length series)%nat ->
   map (fun o => (baseHypoAlert o, baseHyperAlert o))
     (steps series low high horizonMin) =
   map (fun i => (Spec.hypo series low horizonMin i,
                  Spec.hyper series high horizonMin i))
     (Spec.evaluated series horizonMin)) /\
  Forall (fun o =>
            baseHypoAlert o = Spec.hypo series low horizonMin (index o) /\
            baseHyperAlert o = Spec.hyper series high horizonMin (index o) /\
            baseAlert o = baseHypoAlert o || baseHyperAlert o)
         (steps series low high horizonMin).
Proof.
  assert (Hproj : forall i,
            projectedBg series horizonMin i = Spec.projected series horizonMin i).
  { intro i. unfold projectedBg, Spec.projected. cbv zeta.
    now rewrite slope_agrees. }
  assert (Hall : Forall (fun o =>
            baseHypoAlert o = Spec.hypo series low horizonMin (index o) /\
            baseHyperAlert o = Spec.hyper series high horizonMin (index o) /\
            baseAlert o = baseHypoAlert o || baseHyperAlert o)
         (steps series low high horizonMin)).
  { rewrite steps_observations.
    destruct (run series low high horizonMin); [|constructor].
    apply observations_Forall. intros i q _.
    destruct (observe_labels series low high horizonMin
                (sliceSteps series horizonMin) q i)
      as (Hi & _ & _ & _ & Hh & Hy & Ha & _).
    rewrite Hi, Hh, Hy. unfold Spec.hypo, Spec.hyper. rewrite <- !Hproj.
    split; [reflexivity|]. split; [reflexivity | exact Ha]. }
  split; [apply slope_agrees|]. split; [exact Hproj|].
  split; [apply steps_evaluated|]. split; [|exact Hall].
  intro Hlen. rewrite <- (steps_evaluated series low high horizonMin Hlen).
  rewrite map_map. apply map_ext_in. intros o Ho.
  rewrite Forall_forall in Hall. destruct (Hall o Ho) as (-> & -> & _).
  reflexivity.
Qed.

(** On the example series (150 mg/dL with a dip to 60 from sample 14 to
    sample 34, range 70..180, horizon 30 minutes) the loop decides at
    the indices 10 to 38.  At index 35 the reading is back at 150 but
    the slope over the window from sample 30 is 3.6 mg/dL a minute: the
    projection is 258 and the baseline raises HYPER, not HYPO. *)
Lemma baseline_stateless_witness :
  map index (steps Examples.long 70 180 30) = seq 10 29 /\
  (Spec.projected Examples.long 30 35 == 258)%Q /\
  nth 25 (map (fun o => (baseHypoAlert o, baseHyperAlert o))
            (steps Examples.long 70 180 30)) (false, false) = (false, true).
Proof.
  destruct (baseline_stateless Examples.long 70 180 30)
    as (_ & _ & Hidx & Hdec & _).
  split; [|split].
  - rewrite Hidx; [vm_compute; reflexivity | vm_compute; lia].
  - vm_compute. reflexivity.
  - rewrite Hdec; [vm_compute; reflexivity | vm_compute; lia].
Defined.

(** C5.  The loop labels every evaluated index, in order.  At every
    evaluated index [i] the label [trueHypo] holds exactly when a sample
    among [i + 1 .. i + horizonSteps] is below [low], [trueHyper]
    exactly when one of them is above [high], [trueEvent] is their
    disjunction, and the counters of both policies classify their
    decisions against that one label. *)
Theorem ground_truth_labels (series : list Sample) (low high horizonMin : Q)
    (h : Z) (r : Report) :
  horizonSteps series horizonMin = Fin h ->
  backtest series low high horizonMin = Some r ->
  let run := steps series low high horizonMin in
  let within (i k : nat) :=
    (Z.of_nat i + 1 <= Z.of_nat k <= Z.of_nat i + h)%Z in
  map index run = Spec.range (length series) h /\
  Forall (fun o =>
            (trueHypo o = true <->
             exists k, within (index o) k /\ (bg (at_ series k) < low)%Q) /\
            (trueHyper o = true <->
             exists k, within (index o) k /\ (high < bg (at_ series k))%Q) /\
            trueEvent o = trueHypo o || trueHyper o) run /\
  rTP (baseline r) = count (fun o => baseAlert o && trueEvent o) run /\
  rFP (baseline r) = count (fun o => baseAlert o && negb (trueEvent o)) run /\
  rFN (baseline r) = count (fun o => negb (baseAlert o) && trueEvent o) run /\
  rTP (improved r) = count (fun o => impAlert o && trueEvent o) run /\
  rFP (improved r) = count (fun o => impAlert o && negb (trueEvent o)) run /\
  rFN (improved r) = count (fun o => negb (impAlert o) && trueEvent o) run.
Proof.
  intros Hh Hr. cbv zeta.
  split.
  { assert (Hlen : (20 <= length series)%nat).
    { unfold backtest, run in Hr.
      destruct (Nat.ltb_spec (length series) 20); [discriminate | lia]. }
    rewrite (steps_evaluated series low high horizonMin Hlen).
    unfold Spec.evaluated. now rewrite Hh. }
  unfold backtest in Hr. rewrite steps_observations.
  destruct (run series low high horizonMin) as [st|] eqn:Hrun; [|discriminate].
  injection Hr as <-.
  assert (Hs : sliceSteps series horizonMin = h).
  { unfold sliceSteps. now rewrite Hh. }
  split.
  - rewrite Hs. apply observations_Forall. intros i q Hin.
    destruct (evaluated_bounds series horizonMin i Hin)
      as (h' & Hh' & H1 & H10 & Hlt).
    assert (h' = h) as -> by congruence.
    destruct (observe_labels series low high horizonMin h q i)
      as (Hi & Hhypo & Hhyper & He & _).
    rewrite Hi, Hhypo, Hhyper. unfold future.
    rewrite !existsb_slice.
    split; [|split]; [split | split |].
    + intros (k & Hk & _ & Hf). exists k. split; [lia|]. now apply Qltb_lt.
    + intros (k & Hk & Hf). exists k. repeat split; try lia. now apply Qltb_lt.
    + intros (k & Hk & _ & Hf). exists k. split; [lia|]. now apply Qltb_lt.
    + intros (k & Hk & Hf). exists k. repeat split; try lia. now apply Qltb_lt.
    + rewrite He, Hhypo, Hhyper. reflexivity.
  - rewrite run_fold in Hrun.
    destruct (length series <? 20)%nat; [discriminate|].
    injection Hrun as <-.
    destruct (fold_counts series low high horizonMin
                (sliceSteps series horizonMin)
                (Spec.evaluated series horizonMin) initial)
      as (H1 & H2 & H3 & H4 & H5 & H6).
    cbn [report policyReport baseline improved rTP rFP rFN].
    rewrite H1, H2, H3, H4, H5, H6. cbn. repeat split.
Qed.

(** On the example series, with 6 horizon steps, the loop labels the
    indices 10 to 38; at index 10 the dip that starts at sample 14 is
    inside the future window 11..16, so [trueHypo] holds there; 20 of
    the baseline's alerts and 2 of the improved policy's meet a true
    event. *)
Lemma ground_truth_labels_witness :
  map index (steps Examples.long 70 180 30) = seq 10 29 /\
  trueHypo (nth 0 (steps Examples.long 70 180 30) Examples.noObs) = true /\
  count (fun o => baseAlert o && trueEvent o)
    (steps Examples.long 70 180 30) = 20%nat /\
  count (fun o => impAlert o && trueEvent o)
    (steps Examples.long 70 180 30) = 2%nat.
Proof.
  destruct (ground_truth_labels Examples.long 70 180 30 6 Examples.longReport)
    as (Hidx & Hall & Hb & _ & _ & Hi & _).
  - vm_compute. reflexivity.
  - vm_compute. reflexivity.
  - split; [exact Hidx|]. split; [|split].
    + rewrite Forall_forall in Hall.
      destruct (Hall (nth 0 (steps Examples.long 70 180 30) Examples.noObs))
        as ((_ & Hhypo) & _).
      * apply nth_In. vm_compute. lia.
      * apply Hhypo. exists 14%nat. split.
        -- assert (E : index (nth 0 (steps Examples.long 70 180 30)
                                Examples.noObs) = 10%nat)
             by (vm_compute; reflexivity).
           rewrite E. lia.
        -- vm_compute. reflexivity.
    + rewrite <- Hb. reflexivity.
    + rewrite <- Hi. reflexivity.
Defined.

Lemma ofNat_add (a b : nat) : (ofNat (a + b) == ofNat a + ofNat b)%Q.
Proof.
  unfold ofNat. rewrite Nat2Z.inj_add, inject_Z_plus. reflexivity.
Qed.

Lemma ofNat_nonneg (a : nat) : (0 <= ofNat a)%Q.
Proof.
  unfold ofNat. change 0%Q with (inject_Z 0). rewrite <- Zle_Qle. lia.
Qed.

Lemma ofNat_pos (a : nat) : (0 < a)%nat -> (0 < ofNat a)%Q.
Proof.
  intro H. unfold ofNat. change 0%Q with (inject_Z 0). rewrite <- Zlt_Qlt. lia.
Qed.

Lemma ofNat_le (a b : nat) : (a <= b)%nat -> (ofNat a <= ofNat b)%Q.
Proof. intro H. unfold ofNat. rewrite <- Zle_Qle. lia. Qed.

(** [tp / (tp + other)], 0 on a zero denominator, is what the
    specification writes, and lies between 0 and 1. *)
Lemma quotient_ratio (tp other : nat) :
  let q := if (tp + other =? 0)%nat then 0%Q
           else (ofNat tp / ofNat (tp + other))%Q in
  (q == Spec.ratio tp other)%Q /\ (0 <= q <= 1)%Q.
Proof.
  cbv zeta. unfold Spec.ratio.
  destruct (Nat.eqb_spec (tp + other) 0) as [Hz|Hnz].
  - split; [reflexivity|]. split; [apply Qle_refl | discriminate].
  - assert (Hpos : (0 < ofNat (tp + other))%Q) by (apply ofNat_pos; lia).
    split; [now rewrite ofNat_add|]. split.
    + apply Qle_shift_div_l; [exact Hpos|].
      rewrite Qmult_0_l. apply ofNat_nonneg.
    + apply Qle_shift_div_r; [exact Hpos|].
      rewrite Qmult_1_l. apply ofNat_le. lia.
Qed.

(** C7.  In every report, for each policy, precision is TP / (TP + FP)
    and recall is TP / (TP + FN), each 0 when its denominator is 0, so
    both lie in [0, 1]; the false-positive reduction is
    (baselineFP - improvedFP) / baselineFP * 100, and 0 when baselineFP
    is 0. *)
Theorem report_metrics (series : list Sample) (low high horizonMin : Q)
    (r : Report) :
  backtest series low high horizonMin = Some r ->
  Forall (fun p =>
            (rPrecision p == Spec.ratio (rTP p) (rFP p))%Q /\
            (rRecall p == Spec.ratio (rTP p) (rFN p))%Q /\
            ((rTP p + rFP p = 0)%nat -> rPrecision p = 0%Q) /\
            ((rTP p + rFN p = 0)%nat -> rRecall p = 0%Q) /\
            (0 <= rPrecision p <= 1)%Q /\ (0 <= rRecall p <= 1)%Q)
         [baseline r; improved r] /\
  fpReductionPct r =
    (if (rFP (baseline r) =? 0)%nat then 0
     else (ofNat (rFP (baseline r)) - ofNat (rFP (improved r)))
          / ofNat (rFP (baseline r)) * 100)%Q.
Proof.
  unfold backtest. destruct (run series low high horizonMin) as [st|];
    [|discriminate].
  intro H. injection H as <-.
  assert (Hp : forall c,
            let p := policyReport c in
            (rPrecision p == Spec.ratio (rTP p) (rFP p))%Q /\
            (rRecall p == Spec.ratio (rTP p) (rFN p))%Q /\
            ((rTP p + rFP p = 0)%nat -> rPrecision p = 0%Q) /\
            ((rTP p + rFN p = 0)%nat -> rRecall p = 0%Q) /\
            (0 <= rPrecision p <= 1)%Q /\ (0 <= rRecall p <= 1)%Q).
  { intros [tp fp fn]. cbn.
    destruct (quotient_ratio tp fp) as [E1 B1].
    destruct (quotient_ratio tp fn) as [E2 B2].
    unfold precision, recall.
    split; [exact E1|]. split; [exact E2|].
    split; [intros ->; reflexivity|]. split; [intros ->; reflexivity|].
    split; assumption. }
  split; [|reflexivity].
  cbn [report baseline improved]. repeat constructor; apply Hp.
Qed.

(** The report of the example backtest: precision 20/25 and 2/2,
    recall 20/24 and 2/24, a reduction of 100%. *)
Lemma report_metrics_witness :
  (rPrecision (baseline Examples.longReport) == 4 # 5)%Q /\
  (rRecall (improved Examples.longReport) == 1 # 12)%Q /\
  (fpReductionPct Examples.longReport == 100)%Q.
Proof.
  destruct (report_metrics Examples.long 70 180 30 Examples.longReport)
    as [Hall Hred].
  - vm_compute. reflexivity.
  - inversion Hall as [|p l (Hb & _) Hrest]. subst.
    inversion Hrest as [|p l (_ & Hi & _) _]. subst.
    split; [rewrite Hb; reflexivity|].
    split; [rewrite Hi; reflexivity|].
    rewrite Hred. reflexivity.
Defined.




(** ** The absorption curve *)

Section CurveFacts.

Local Open Scope R_scope.

Lemma absorption_at_zero (peakRise peakMin : R) :
  Generator.absorption peakRise 0 peakMin = 0.
Proof.
  unfold Generator.absorption, Generator.shape, Rdiv. cbv zeta.
  rewrite !Rmult_0_l. apply Rmult_0_r.
Qed.

Lemma absorption_at_peak (peakRise peakMin : R) :
  1 <= peakMin -> Generator.absorption peakRise peakMin peakMin = peakRise.
Proof.
  intro H. unfold Generator.absorption, Generator.shape. cbv zeta.
  rewrite Rmax_right by exact H.
  replace (peakMin / peakMin) with 1 by (field; lra).
  replace (1 - 1) with 0 by ring. rewrite exp_0. ring.
Qed.

(** Every point of the predicted curve is the current value plus the
    absorption curve at that point's minute. *)
Lemma curveLoop_points (currentBg gramsSugar mgdlPerGram peakMin : R)
    (horizonMin : Z) (activityFactor : R) (fuel : nat) (t : Z) :
  Forall (fun p =>
            Generator.cbg p =
            currentBg +
            Generator.absorption (gramsSugar * mgdlPerGram * activityFactor)
              (IZR (Generator.tMin p)) peakMin)
         (Generator.curveLoop currentBg gramsSugar mgdlPerGram peakMin
            horizonMin activityFactor fuel t).
Proof.
  revert t. induction fuel as [|fuel IH]; intro t; cbn [Generator.curveLoop].
  - constructor.
  - destruct (t <=? horizonMin)%Z; constructor; [reflexivity | apply IH].
Qed.

(** The loop of [predictSugarCurve] ends by its test: one point every
    10 minutes from 0 to the horizon. *)
Lemma curveLoop_length (currentBg gramsSugar mgdlPerGram peakMin : R)
    (horizonMin : Z) (activityFactor : R) (fuel : nat) (t : Z) :
  (t <= horizonMin)%Z -> (Z.to_nat (horizonMin - t) < fuel)%nat ->
  length (Generator.curveLoop currentBg gramsSugar mgdlPerGram peakMin
            horizonMin activityFactor fuel t) =
  Z.to_nat ((horizonMin - t) / 10 + 1).
Proof.
  revert t. induction fuel as [|fuel IH]; intros t Ht Hfuel; [lia|].
  cbn [Generator.curveLoop].
  destruct (Z.leb_spec t horizonMin) as [_|Hgt]; [|lia]. cbn [length].
  destruct (Z.leb_spec (t + 10) horizonMin) as [Hle|Hgt].
  - rewrite IH by lia.
    replace (horizonMin - t)%Z with (horizonMin - (t + 10) + 1 * 10)%Z by lia.
    rewrite Z.div_add by lia.
    assert (0 <= (horizonMin - (t + 10)) / 10)%Z by (apply Z.div_pos; lia).
    lia.
  - rewrite Z.div_small by lia.
    destruct fuel; cbn [Generator.curveLoop length]; [reflexivity|].
    destruct (Z.leb_spec (t + 10) horizonMin); [lia | reflexivity].
Qed.

(** C9, as the code has it.  The absorption curve is
    [peakRise * x * exp(1 - x)] with [x = t / max(1, peakMin)], which
    every point of [predictSugarCurve] adds to the current value; it is
    0 at [t = 0] and, when [peakMin >= 1], it is [peakRise] at
    [t = peakMin]. *)
Theorem absorption_curve (peakRise t peakMin : R) :
  Generator.absorption peakRise t peakMin =
    peakRise * (t / Rmax 1 peakMin) * exp (1 - t / Rmax 1 peakMin) /\
  (forall currentBg gramsSugar mgdlPerGram horizonMin activityFactor,
     Forall (fun p =>
               Generator.cbg p =
               currentBg +
               Generator.absorption (gramsSugar * mgdlPerGram * activityFactor)
                 (IZR (Generator.tMin p)) peakMin)
            (Generator.predictSugarCurve currentBg gramsSugar mgdlPerGram
               peakMin horizonMin activityFactor)) /\
  Generator.absorption peakRise 0 peakMin = 0 /\
  (1 <= peakMin -> Generator.absorption peakRise peakMin peakMin = peakRise).
Proof.
  split; [unfold Generator.absorption, Generator.shape; cbv zeta; ring|].
  split; [intros; apply curveLoop_points|].
  split; [apply absorption_at_zero | apply absorption_at_peak].
Qed.

(** With the generator's peak at 45 minutes, a rise of 28 mg/dL is
    reached 45 minutes after the meal. *)
Lemma absorption_curve_witness : Generator.absorption 28 45 45 = 28.
Proof.
  destruct (absorption_curve 28 45 45) as (_ & _ & _ & Hpeak).
  apply Hpeak. lra.
Defined.

(** C9, as stated, fails for a peak minute below 1, where the divisor is
    1 and not the peak minute: at [peakMin = 0] the curve is 0, and at
    [peakMin = 1/2] it is [exp(1/2) / 2 < 1]. *)
Lemma absorption_curve_counterexample :
  Generator.absorption 1 0 0 <> 1 /\
  Generator.absorption 1 (1 / 2) (1 / 2) <> 1.
Proof.
  split.
  - rewrite absorption_at_zero. lra.
  - unfold Generator.absorption, Generator.shape. cbv zeta.
    rewrite Rmax_left by lra.
    replace (1 / 2 / 1) with (1 / 2) by field.
    replace (1 - 1 / 2) with (1 / 2) by field.
    intro H.
    assert (H2 : exp (1 / 2) = 2) by lra.
    assert (H4 : exp 1 = 4).
    { replace 1 with (1 / 2 + 1 / 2) at 1 by field.
      rewrite exp_plus, H2. lra. }
    pose proof exp_le_3. lra.
Qed.

End CurveFacts.

(** ** The synthetic generator *)

Section GeneratorFacts.

Local Open Scope R_scope.

Variables dateNow days approxPoints : Z.

Local Abbreviation total := (Generator.totalMinutes days).
Local Abbreviation start := (Generator.startMs dateNow days).
Local Abbreviation stepMin := (Generator.stepMin days approxPoints).
Local Abbreviation mainLoop := (Generator.mainLoop dateNow days approxPoints).

(** A single meal is at its peak rise 45 minutes after its onset. *)
Lemma meal_peak (t0 g : Z) :
  Generator.mealDeltaAtMinute [t0] [g] (t0 + 45) = IZR g * (14 / 10).
Proof.
  unfold Generator.mealDeltaAtMinute. cbn [combine fold_left fst snd].
  replace (t0 + 45 - t0)%Z with 45%Z by lia.
  cbn [Z.ltb Z.compare].
  unfold Generator.peakMin', Generator.mgdlPerGram'.
  rewrite absorption_at_peak by lra. ring.
Qed.

Lemma stepMin_cases :
  (exists s, stepMin = Fin s /\ (5 <= s)%Z) \/ stepMin = PosInf \/ stepMin = NaN.
Proof. apply js_max_cases. Qed.

Lemma clamp_bounds (v : R) : 40 <= Rmax 40 (Rmin 400 v) <= 400.
Proof.
  split; [apply Rmax_l|].
  apply Rmax_lub; [lra | apply Rmin_l].
Qed.

(** One turn of the main loop. *)
Lemma mainLoop_step (mt ms he hy : list Z) (fuel : nat) (m : Z)
    (rng : nat -> R) (n : nat) :
  (m <= total)%Z ->
  exists v rest n1,
    fst (mainLoop mt ms he hy (S fuel) m rng n) =
      Generator.mkPoint (start + m * 60 * 1000)%Z (Rmax 40 (Rmin 400 v))
        :: rest /\
    rest =
      match stepMin with
      | Fin s => fst (mainLoop mt ms he hy fuel (m + s) rng n1)
      | _ => []
      end.
Proof.
  intro Hm. cbn [Generator.mainLoop].
  destruct (Z.leb_spec m total) as [_|Hgt]; [|lia].
  unfold Generator.bind at 1.
  destruct (Generator.randn rng n) as [z n1].
  unfold Generator.bind at 1.
  destruct stepMin as [s| | |].
  - destruct (mainLoop mt ms he hy fuel (m + s) rng n1) as [rest n2] eqn:E.
    eexists. exists rest, n1. rewrite E. split; reflexivity.
  - eexists. exists [], n1. split; reflexivity.
  - eexists. exists [], n1. split; reflexivity.
  - eexists. exists [], n1. split; reflexivity.
Qed.

Lemma mainLoop_done (mt ms he hy : list Z) (fuel : nat) (m : Z)
    (rng : nat -> R) (n : nat) :
  (total < m)%Z -> fst (mainLoop mt ms he hy fuel m rng n) = [].
Proof.
  intro Hm. destruct fuel; cbn [Generator.mainLoop]; [reflexivity|].
  destruct (Z.leb_spec m total); [lia | reflexivity].
Qed.

(** Every emitted value is clamped, every timestamp is that of a minute
    not before [m], and the timestamps increase. *)
Lemma mainLoop_invariant (mt ms he hy : list Z) (fuel : nat) :
  forall (m : Z) (rng : nat -> R) (n : nat),
    let l := fst (mainLoop mt ms he hy fuel m rng n) in
    Forall (fun p => 40 <= Generator.bg p <= 400) l /\
    Forall (fun p => (start + m * 60 * 1000 <= Generator.tMs p)%Z) l /\
    StronglySorted Z.lt (map Generator.tMs l).
Proof.
  induction fuel as [|fuel IH]; intros m rng n; cbv zeta.
  - cbn. repeat constructor.
  - destruct (Z.leb_spec m total) as [Hm|Hm].
    + destruct (mainLoop_step mt ms he hy fuel m rng n Hm)
        as (v & rest & n1 & -> & Hrest).
      assert (Hr : Forall (fun p => 40 <= Generator.bg p <= 400) rest /\
                   Forall (fun p => (start + m * 60 * 1000
                                     < Generator.tMs p)%Z) rest /\
                   StronglySorted Z.lt (map Generator.tMs rest)).
      { destruct stepMin_cases as [(s & Hs & H5) | [Hs|Hs]];
          rewrite Hs in Hrest; subst rest;
          try (repeat split; constructor).
        destruct (IH (m + s)%Z rng n1) as (Hb & Ht & Hsort).
        repeat split; try assumption.
        eapply Forall_impl; [|exact Ht]. cbn beta. intros p Hp. lia. }
      destruct Hr as (Hb & Ht & Hsort).
      repeat split.
      * constructor; [apply clamp_bounds | exact Hb].
      * constructor; [cbn; lia|].
        eapply Forall_impl; [|exact Ht]. cbn beta. intros p Hp. lia.
      * cbn [map Generator.tMs]. constructor; [exact Hsort|].
        apply Forall_map. exact Ht.
    + rewrite mainLoop_done by lia. repeat constructor.
Qed.

(** The main loop ends by its test, not by its fuel: from minute [m] it
    emits one point per step up to [totalMinutes]. *)
Lemma mainLoop_length (mt ms he hy : list Z) (s : Z) (fuel : nat) :
  stepMin = Fin s ->
  forall (m : Z) (rng : nat -> R) (n : nat),
    (m <= total)%Z -> (Z.to_nat (total - m) < fuel)%nat ->
    length (fst (mainLoop mt ms he hy fuel m rng n)) =
    Z.to_nat ((total - m) / s + 1).
Proof.
  intro Hs.
  assert (H5 : (5 <= s)%Z).
  { destruct stepMin_cases as [(s' & Hs' & H5) | [Hn|Hn]]; congruence. }
  induction fuel as [|fuel IH]; intros m rng n Hm Hfuel; [lia|].
  destruct (mainLoop_step mt ms he hy fuel m rng n Hm)
    as (v & rest & n1 & -> & Hrest).
  rewrite Hs in Hrest. subst rest. cbn [length].
  destruct (Z.leb_spec (m + s) total) as [Hle|Hgt].
  - rewrite IH by lia.
    replace (total - m)%Z with (total - (m + s) + 1 * s)%Z by lia.
    rewrite Z.div_add by lia.
    assert (0 <= (total - (m + s)) / s)%Z by (apply Z.div_pos; lia).
    lia.
  - rewrite mainLoop_done by lia.
    rewrite Z.div_small by lia. reflexivity.
Qed.

End GeneratorFacts.

(** C8.  Whatever the days, the point count and the random draws, every
    point of the generated series has its value in [40, 400], and the
    timestamps of the series increase strictly. *)
Theorem generated_series_invariant (dateNow days approxPoints : Z)
    (rng : nat -> R) (n : nat) :
  let series :=
    fst (Generator.generateSyntheticSeries dateNow days approxPoints rng n) in
  Forall (fun p => (40 <= Generator.bg p <= 400)%R) series /\
  StronglySorted Z.lt (map Generator.tMs series).
Proof.
  cbv zeta.
  assert (E : exists mt ms he hy n4,
            fst (Generator.generateSyntheticSeries dateNow days approxPoints
                   rng n) =
            fst (Generator.mainLoop dateNow days approxPoints mt ms he hy
                   (Z.to_nat (Generator.totalMinutes days) + 1) 0 rng n4)).
  { unfold Generator.generateSyntheticSeries.
    unfold Generator.bind at 1.
    destruct (Generator.mealSchedule _ _ rng n) as [mt n1].
    unfold Generator.bind at 1.
    destruct (Generator.mealSugars mt rng n1) as [ms n2].
    unfold Generator.bind at 1.
    destruct (Generator.drawEvents days _ rng n2) as [he n3].
    unfold Generator.bind at 1.
    destruct (Generator.drawEvents days _ rng n3) as [hy n4].
    exists mt, ms, he, hy, n4. reflexivity. }
  destruct E as (mt & ms & he & hy & n4 & ->).
  destruct (mainLoop_invariant dateNow days approxPoints mt ms he hy
              (Z.to_nat (Generator.totalMinutes days) + 1) 0 rng n4)
    as (Hb & _ & Hsort).
  split; assumption.
Qed.

(** The generated series has one point per step from minute 0 to
    [totalMinutes]: the loop's fuel never runs out first. *)
Lemma generated_series_length (dateNow days approxPoints s : Z)
    (rng : nat -> R) (n : nat) :
  Generator.stepMin days approxPoints = Fin s ->
  (0 <= days)%Z ->
  length (fst (Generator.generateSyntheticSeries dateNow days approxPoints
                 rng n)) =
  Z.to_nat (Generator.totalMinutes days / s + 1).
Proof.
  intros Hs Hdays.
  unfold Generator.generateSyntheticSeries.
  unfold Generator.bind at 1.
  destruct (Generator.mealSchedule _ _ rng n) as [mt n1].
  unfold Generator.bind at 1.
  destruct (Generator.mealSugars mt rng n1) as [ms n2].
  unfold Generator.bind at 1.
  destruct (Generator.drawEvents days _ rng n2) as [he n3].
  unfold Generator.bind at 1.
  destruct (Generator.drawEvents days _ rng n3) as [hy n4].
  assert (Ht : (0 <= Generator.totalMinutes days)%Z)
    by (unfold Generator.totalMinutes; lia).
  rewrite (mainLoop_length dateNow days approxPoints mt ms he hy s _ Hs)
    by lia.
  now rewrite Z.sub_0_r.
Qed.

(** The default request, 90 days and about 500 points, samples every
    259 minutes and yields 501 points. *)
Example default_series_length (dateNow : Z) (rng : nat -> R) :
  length (fst (Generator.generateSyntheticSeries dateNow 90 500 rng 0%nat)) = 501%nat.
Proof.
  rewrite (generated_series_length dateNow 90 500 259);
    [reflexivity | vm_compute; reflexivity | lia].
Qed.

(** ** Form inputs and preferences: what reaches the core *)

Section UiFacts.

Local Open Scope Q_scope.

Lemma clamp_finite (n : ext Q) (min max : Q) :
  min <= max ->
  match Ui.clampNumber n (Fin min) (Fin max) with
  | Some v => exists q, v = Fin q /\ min <= q <= max
  | None => n = NaN
  end.
Proof.
  intro H. destruct n as [x| | |]; cbn.
  - eexists. split; [reflexivity|]. split.
    + apply Q.le_max_l.
    + apply Q.max_lub; [exact H | apply Q.le_min_l].
  - eexists. split; [reflexivity|]. split.
    + apply Q.le_max_l.
    + apply Q.max_lub; [exact H | apply Qle_refl].
  - eexists. split; [reflexivity|]. split; [apply Qle_refl | exact H].
  - reflexivity.
Qed.

(** X1.  For finite bounds [min <= max], [clampNumber] returns [null]
    exactly for NaN; any other input, the infinities included, gives a
    finite number between the bounds, and a number already between the
    bounds is returned unchanged. *)
Theorem clampNumber_range (n : ext Q) (min max : Q) :
  min <= max ->
  (Ui.clampNumber n (Fin min) (Fin max) = None <-> n = NaN) /\
  (forall v, Ui.clampNumber n (Fin min) (Fin max) = Some v ->
     exists q, v = Fin q /\ min <= q <= max) /\
  (forall x, n = Fin x -> min <= x <= max ->
     exists q, Ui.clampNumber n (Fin min) (Fin max) = Some (Fin q) /\ q == x).
Proof.
  intro H. pose proof (clamp_finite n min max H) as Hc. repeat split.
  - intro E. now rewrite E in Hc.
  - intros ->. reflexivity.
  - intros v E. now rewrite E in Hc.
  - intros x -> [Hlo Hhi]. cbn. eexists. split; [reflexivity|].
    rewrite (Q.min_r max x) by exact Hhi. now apply Q.max_r.
Qed.

Lemma clampNumber_range_witness :
  exists q, Ui.clampNumber (Fin 700) (Fin 20) (Fin 600) = Some (Fin q) /\
            20 <= q <= 600.
Proof.
  destruct (clampNumber_range (Fin 700) 20 600) as (_ & Hv & _).
  - discriminate.
  - destruct (Hv (Fin (Qmax 20 (Qmin 600 700))) eq_refl) as (q & E & Hq).
    exists q. split; [now rewrite <- E | exact Hq].
Defined.

Lemma orElse_clamp (n : ext Q) (min max d : Q) :
  min <= max -> min <= d <= max ->
  exists q, Ui.orElse (Ui.clampNumber n (Fin min) (Fin max)) d = Fin q /\
            min <= q <= max.
Proof.
  intros H Hd. pose proof (clamp_finite n min max H) as Hc.
  destruct (Ui.clampNumber n (Fin min) (Fin max)) as [v|]; cbn.
  - exact Hc.
  - exists d. split; [reflexivity | exact Hd].
Qed.

(** X2.  Whatever the two target fields hold, NaN and infinities
    included, [getPrefs] yields a finite range with [low < high]: [high]
    is between 40 and 400 and [low] between 39 and 300. *)
Theorem targetRange_ordered (lowInput highInput : ext Q) :
  exists lo hi,
    Ui.targetRange lowInput highInput = (Fin lo, Fin hi) /\
    lo < hi /\ 39 <= lo <= 300 /\ 40 <= hi <= 400.
Proof.
  unfold Ui.targetRange.
  destruct (orElse_clamp lowInput 40 300 70) as (l & -> & Hl);
    [discriminate | split; discriminate |].
  destruct (orElse_clamp highInput 40 400 180) as (h & -> & Hh);
    [discriminate | split; discriminate |].
  cbn. eexists. eexists. split; [reflexivity|].
  destruct Hl as [Hl1 Hl2], Hh as [Hh1 Hh2].
  assert (Hlo : Qmin l (h - 1) <= h - 1) by apply Q.le_min_r.
  assert (Hlo' : Qmin l (h - 1) <= l) by apply Q.le_min_l.
  assert (Hge : 39 <= Qmin l (h - 1)).
  { apply Q.min_glb; [apply Qle_trans with 40; [discriminate | exact Hl1]|].
    apply Qle_trans with (40 - 1); [discriminate|].
    apply Qplus_le_compat; [exact Hh1 | apply Qle_refl]. }
  assert (Hhi : h <= Qmax h (Qmin l (h - 1) + 1)) by apply Q.le_max_l.
  assert (Hhi' : Qmax h (Qmin l (h - 1) + 1) <= 400).
  { apply Q.max_lub; [exact Hh2|].
    apply Qle_trans with (h - 1 + 1).
    - apply Qplus_le_compat; [exact Hlo | apply Qle_refl].
    - apply Qle_trans with h; [|exact Hh2].
      assert (E : h - 1 + 1 == h) by ring. rewrite E. apply Qle_refl. }
  repeat split.
  - apply Qle_lt_trans with (h - 1); [exact Hlo|].
    apply Qlt_le_trans with h; [|exact Hhi].
    rewrite <- (Qplus_0_r h) at 2. unfold Qminus.
    apply Qplus_lt_r. reflexivity.
  - exact Hge.
  - apply Qle_trans with l; assumption.
  - apply Qle_trans with h; assumption.
  - exact Hhi'.
Qed.

(** [generateTestSet] always calls the generator with finite [days] in
    7..180 and [approxPoints] in 100..5000. *)
Lemma testSetArgs_bounded (daysInput pointsInput : ext Q) :
  exists d p,
    Ui.testSetArgs daysInput pointsInput = (Fin d, Fin p) /\
    7 <= d <= 180 /\ 100 <= p <= 5000.
Proof.
  unfold Ui.testSetArgs.
  destruct (orElse_clamp daysInput 7 180 90) as (d & -> & Hd);
    [discriminate | split; discriminate |].
  destruct (orElse_clamp pointsInput 100 5000 500) as (p & -> & Hp);
    [discriminate | split; discriminate |].
  exists d, p. repeat split; tauto.
Qed.

End UiFacts.

Section FormFacts.

Local Open Scope Q_scope.

Variable toISOString : String.string -> option String.string.
Variable trim : String.string -> String.string.

Local Abbreviation readForm := (Ui.readForm toISOString trim).

Lemma clamped_not_falsy (glucose : ext Q) :
  glucose <> NaN ->
  exists q, Ui.clampNumber glucose (Fin 20) (Fin 600) = Some (Fin q) /\
            20 <= q <= 600 /\
            Ui.falsy (Some (Fin q)) = false.
Proof.
  intro Hn.
  pose proof (clamp_finite glucose 20 600 ltac:(discriminate)) as Hc.
  destruct (Ui.clampNumber glucose (Fin 20) (Fin 600)) as [v|];
    [|contradiction].
  destruct Hc as (q & -> & Hq). exists q. repeat split; try tauto.
  cbn. destruct (Qeq_bool q 0) eqn:E; [|reflexivity].
  apply Qeq_bool_iff in E. destruct Hq as [Hq _]. rewrite E in Hq.
  exfalso. apply Hq. reflexivity.
Qed.

(** X3.  A record accepted by [readForm] holds a finite value between
    20 and 600 and the ISO form of a non-empty, valid date, and a value
    below 55 or above 350 is accepted only after the confirmation.  A
    finite input outside 20..600 is not rejected: once confirmed it is
    stored clamped to the nearer bound when the date is valid, and the
    call throws [RangeError] when the date is not.  The call throws
    only for a non-empty invalid date, after the glucose check and the
    confirmation passed.  NaN is rejected. *)
Theorem readForm_accepted (glucose : ext Q)
    (context dtLocal notes : String.string) (confirmed : bool) :
  (forall e, readForm glucose context dtLocal notes confirmed = Ui.Accepted e ->
     exists q, Ui.eValue e = Fin q /\ 20 <= q <= 600 /\
               dtLocal <> String.EmptyString /\
               toISOString dtLocal = Some (Ui.eDtIso e) /\
               (q < 55 \/ 350 < q -> confirmed = true)) /\
  (forall g, glucose = Fin g -> dtLocal <> String.EmptyString ->
     readForm glucose context dtLocal notes true =
     match toISOString dtLocal with
     | Some dtIso =>
         Ui.Accepted (Ui.mkEntry (Fin (Qmax 20 (Qmin 600 g))) context
                        dtIso (trim notes))
     | None => Ui.RangeError
     end) /\
  (readForm glucose context dtLocal notes confirmed = Ui.RangeError ->
   glucose <> NaN /\ dtLocal <> String.EmptyString /\
   toISOString dtLocal = None /\
   exists q, Ui.clampNumber glucose (Fin 20) (Fin 600) = Some (Fin q) /\
             (q < 55 \/ 350 < q -> confirmed = true)) /\
  (glucose = NaN ->
   readForm glucose context dtLocal notes confirmed =
   Ui.Rejected Ui.EnterGlucose).
Proof.
  split; [|split; [|split]].
  - intros e H.
    assert (Hn : glucose <> NaN) by (intros ->; discriminate H).
    destruct (clamped_not_falsy glucose Hn) as (q & Ec & Hq & Hf).
    unfold Ui.readForm in H. rewrite Ec, Hf in H.
    destruct (String.eqb_spec dtLocal String.EmptyString) as [|Hdt];
      [discriminate|].
    cbn [Ui.orElse Ui.js_ltQ Ui.js_gtQ] in H.
    destruct ((Qltb q 55 || Qltb 350 q) && negb confirmed) eqn:Eo;
      [discriminate|].
    destruct (toISOString dtLocal) as [iso|]; [|discriminate].
    injection H as <-. exists q. cbn [Ui.eValue Ui.eDtIso].
    split; [reflexivity|]. split; [exact Hq|]. split; [exact Hdt|].
    split; [reflexivity|].
    intros Hout. destruct confirmed; [reflexivity|].
    rewrite andb_true_r in Eo. apply orb_false_iff in Eo as [E1 E2].
    destruct Hout as [Hout|Hout]; apply Qltb_lt in Hout; congruence.
  - intros g -> Hdt. unfold Ui.readForm.
    destruct (clamped_not_falsy (Fin g) ltac:(discriminate))
      as (q & E & Hq & Hf).
    cbn in E. injection E as <-.
    cbn [Ui.clampNumber Ui.js_min2 Ui.js_max2]. rewrite Hf.
    destruct (String.eqb_spec dtLocal String.EmptyString); [contradiction|].
    cbn [negb]. rewrite andb_false_r. reflexivity.
  - intro H.
    assert (Hn : glucose <> NaN) by (intros ->; discriminate H).
    split; [exact Hn|].
    destruct (clamped_not_falsy glucose Hn) as (q & Ec & Hq & Hf).
    unfold Ui.readForm in H. rewrite Ec, Hf in H.
    destruct (String.eqb_spec dtLocal String.EmptyString) as [|Hdt];
      [discriminate|].
    split; [exact Hdt|].
    cbn [Ui.orElse Ui.js_ltQ Ui.js_gtQ] in H.
    destruct ((Qltb q 55 || Qltb 350 q) && negb confirmed) eqn:Eo;
      [discriminate|].
    destruct (toISOString dtLocal) as [iso|]; [discriminate|].
    split; [reflexivity|]. exists q. split; [exact Ec|].
    intros Hout. destruct confirmed; [reflexivity|].
    rewrite andb_true_r in Eo. apply orb_false_iff in Eo as [E1 E2].
    destruct Hout as [Hout|Hout]; apply Qltb_lt in Hout; congruence.
  - intros ->. reflexivity.
Qed.

End FormFacts.

(** ** Sorting *)

Section SortFacts.

Context {A : Type}.
Variable compare : A -> A -> Q.

Lemma insert_perm (x : A) (l : list A) :
  Permutation (Log.insert compare x l) (x :: l).
Proof.
  induction l as [|y l IH]; cbn [Log.insert]; [reflexivity|].
  destruct (Qle_bool (compare x y) 0); [reflexivity|].
  rewrite IH. apply perm_swap.
Qed.

Lemma sort_perm (l : list A) : Permutation (Log.sort compare l) l.
Proof.
  induction l as [|x l IH]; cbn [Log.sort fold_right]; [reflexivity|].
  fold (Log.sort compare l). rewrite insert_perm. now constructor.
Qed.

(** Inserting keeps the order among the elements of a class whose
    members the comparator never puts apart. *)
Lemma insert_filter (p : A -> bool) (x : A) (l : list A) :
  (forall y, p x = true -> p y = true -> Qle_bool (compare x y) 0 = true) ->
  filter p (Log.insert compare x l) = filter p (x :: l).
Proof.
  intro Hp. induction l as [|y l IH]; cbn [Log.insert]; [reflexivity|].
  destruct (Qle_bool (compare x y) 0) eqn:E; [reflexivity|].
  cbn [filter] in *. rewrite IH.
  destruct (p x) eqn:Ex, (p y) eqn:Ey; try reflexivity.
  rewrite (Hp y eq_refl Ey) in E. discriminate.
Qed.

Lemma sort_filter (p : A -> bool) (l : list A) :
  (forall x y, p x = true -> p y = true -> Qle_bool (compare x y) 0 = true) ->
  filter p (Log.sort compare l) = filter p l.
Proof.
  intro Hp. induction l as [|x l IH]; cbn [Log.sort fold_right]; [reflexivity|].
  fold (Log.sort compare l). rewrite insert_filter by (intro y; apply Hp).
  cbn [filter]. now rewrite IH.
Qed.

Variable le : A -> A -> Prop.
Hypothesis le_yes : forall a b, Qle_bool (compare a b) 0 = true -> le a b.
Hypothesis le_no : forall a b, Qle_bool (compare a b) 0 = false -> le b a.
Hypothesis le_trans : forall a b c, le a b -> le b c -> le a c.

Lemma insert_sorted (x : A) (l : list A) :
  StronglySorted le l -> StronglySorted le (Log.insert compare x l).
Proof.
  induction 1 as [|y l Hs IH Hy]; cbn [Log.insert].
  - repeat constructor.
  - destruct (Qle_bool (compare x y) 0) eqn:E.
    + constructor; [now constructor|].
      constructor; [now apply le_yes|].
      eapply Forall_impl; [|exact Hy]. intros z Hz.
      eapply le_trans; [apply le_yes; exact E | exact Hz].
    + constructor; [exact IH|].
      eapply Permutation_Forall; [symmetry; apply insert_perm|].
      constructor; [now apply le_no | exact Hy].
Qed.

Lemma sort_sorted (l : list A) : StronglySorted le (Log.sort compare l).
Proof.
  induction l as [|x l IH]; cbn [Log.sort fold_right]; [constructor|].
  now apply insert_sorted.
Qed.

End SortFacts.

(** ** Statistics of the log *)

Section StatsFacts.

Local Open Scope Q_scope.

Lemma filter_length_perm {A} (f : A -> bool) (l l' : list A) :
  Permutation l l' -> length (filter f l) = length (filter f l').
Proof.
  induction 1 as [|x l l' _ IH|x y l|l l' l'' _ IH1 _ IH2]; cbn [filter].
  - reflexivity.
  - destruct (f x); cbn [length]; now rewrite IH.
  - destruct (f x), (f y); reflexivity.
  - now rewrite IH1.
Qed.

Lemma sorted_nth (s : list Q) :
  StronglySorted Qle s ->
  forall i j, (i <= j)%nat -> (j < length s)%nat -> nth i s 0 <= nth j s 0.
Proof.
  induction 1 as [|x s Hs IH Hx]; intros i j Hij Hj; [cbn in Hj; lia|].
  destruct j as [|j].
  - replace i with 0%nat by lia. apply Qle_refl.
  - destruct i as [|i].
    + cbn [nth]. rewrite Forall_forall in Hx. apply Hx.
      apply nth_In. cbn in Hj. lia.
    + cbn [nth]. apply IH; cbn in Hj; lia.
Qed.

Lemma sorted_count_le (s : list Q) (m : Q) :
  StronglySorted Qle s ->
  forall k, (k < length s)%nat -> nth k s 0 <= m ->
    (k + 1 <= length (filter (fun v => Qle_bool v m) s))%nat.
Proof.
  induction 1 as [|x s Hs IH Hx]; intros k Hk Hm; [cbn in Hk; lia|].
  cbn [filter].
  assert (Hxm : Qle_bool x m = true).
  { apply Qle_bool_iff. apply Qle_trans with (nth k (x :: s) 0); [|exact Hm].
    apply (sorted_nth (x :: s) (SSorted_cons x Hs Hx) 0%nat k); [lia | exact Hk]. }
  rewrite Hxm. cbn [length]. destruct k as [|k]; [lia|].
  cbn [nth] in Hm. cbn in Hk. specialize (IH k ltac:(lia) Hm). lia.
Qed.

Lemma sorted_count_ge (s : list Q) (m : Q) :
  StronglySorted Qle s ->
  forall k, (k < length s)%nat -> m <= nth k s 0 ->
    (length s - k <= length (filter (fun v => Qle_bool m v) s))%nat.
Proof.
  induction 1 as [|x s Hs IH Hx]; intros k Hk Hm; [cbn in Hk; lia|].
  destruct k as [|k].
  - cbn [nth] in Hm.
    assert (Hall : forall v, In v (x :: s) -> Qle_bool m v = true).
    { intros v [<-|Hv]; apply Qle_bool_iff; [exact Hm|].
      rewrite Forall_forall in Hx. apply Qle_trans with x; auto. }
    rewrite forallb_filter_id; [lia|].
    apply forallb_forall. exact Hall.
  - cbn [nth] in Hm. cbn in Hk. specialize (IH k ltac:(lia) Hm).
    cbn [filter length]. destruct (Qle_bool m x); cbn [length]; lia.
Qed.

Lemma midpoint (a b : Q) : a <= b -> a <= (a + b) / 2 <= b.
Proof.
  intro H. split.
  - apply Qle_shift_div_l; [reflexivity | Lqa.lra].
  - apply Qle_shift_div_r; [reflexivity | Lqa.lra].
Qed.

Lemma number_sort_sorted (values : list Q) :
  StronglySorted Qle (Log.sort (fun a b => a - b) values).
Proof.
  apply sort_sorted.
  - intros a b H. apply Qle_bool_iff in H. Lqa.lra.
  - intros a b H. destruct (Qlt_le_dec b a) as [Hlt|Hle].
    + now apply Qlt_le_weak.
    + assert (Hc : a - b <= 0) by Lqa.lra.
      apply Qle_bool_iff in Hc. congruence.
  - intros a b c. apply Qle_trans.
Qed.

(** X5.  [median] is [null] exactly on an empty list; otherwise at least
    half of the values are at most the median, at least half are at
    least the median, and the median lies between any bounds that all
    the values respect. *)
Theorem median_middle (values : list Q) :
  (Log.median values = None <-> values = []) /\
  (forall m, Log.median values = Some m ->
     (length values <= 2 * length (filter (fun v => Qle_bool v m) values))%nat /\
     (length values <= 2 * length (filter (fun v => Qle_bool m v) values))%nat /\
     (forall lo hi, (forall v, In v values -> lo <= v <= hi) -> lo <= m <= hi)).
Proof.
  split.
  - destruct values; cbn; split; intro; congruence.
  - intros m Hm.
    set (s := Log.sort (fun a b => a - b) values).
    assert (Hperm : Permutation s values) by apply sort_perm.
    assert (Hsorted : StronglySorted Qle s) by apply number_sort_sorted.
    assert (Hlen : length s = length values) by now apply Permutation_length.
    assert (Hpos : (0 < length s)%nat).
    { rewrite Hlen. destruct values; [discriminate | cbn; lia]. }
    assert (Hmed : m = if (length s mod 2 =? 0)%nat
                       then (nth (length s / 2 - 1) s 0 + nth (length s / 2) s 0) / 2
                       else nth (length s / 2) s 0).
    { destruct values; [discriminate|]. cbn in Hm. injection Hm as <-.
      reflexivity. }
    clearbody s. clear Hm.
    rewrite <- !(filter_length_perm _ _ _ Hperm), <- Hlen.
    assert (Hin : forall k lo hi, (k < length s)%nat ->
              (forall v, In v values -> lo <= v <= hi) ->
              lo <= nth k s 0 <= hi).
    { intros k lo hi Hk Hb. apply Hb.
      apply (Permutation_in _ Hperm). now apply nth_In. }
    destruct (Nat.eqb_spec (length s mod 2) 0) as [Heven|Hodd].
    + set (mid := (length s / 2)%nat) in *.
      assert (Hn : length s = (2 * mid)%nat).
      { pose proof (Nat.div_mod_eq (length s) 2). subst mid. lia. }
      assert (Hab : nth (mid - 1) s 0 <= nth mid s 0).
      { apply sorted_nth; [exact Hsorted | lia | lia]. }
      destruct (midpoint _ _ Hab) as [Hlo Hhi]. rewrite <- Hmed in Hlo, Hhi.
      pose proof (sorted_count_le s m Hsorted (mid - 1)%nat ltac:(lia) Hlo).
      pose proof (sorted_count_ge s m Hsorted mid ltac:(lia) Hhi).
      repeat split; try lia.
      * destruct (Hin (mid - 1)%nat lo hi ltac:(lia) H1). Lqa.lra.
      * destruct (Hin mid lo hi ltac:(lia) H1). Lqa.lra.
    + set (mid := (length s / 2)%nat) in *.
      assert (Hn : length s = (2 * mid + 1)%nat).
      { pose proof (Nat.div_mod_eq (length s) 2).
        pose proof (Nat.mod_upper_bound (length s) 2). subst mid. lia. }
      subst m.
      pose proof (sorted_count_le s _ Hsorted mid ltac:(lia) (Qle_refl _)).
      pose proof (sorted_count_ge s _ Hsorted mid ltac:(lia) (Qle_refl _)).
      repeat split; try lia.
      * now destruct (Hin mid lo hi ltac:(lia) H1).
      * now destruct (Hin mid lo hi ltac:(lia) H1).
Qed.

End StatsFacts.

Section SummaryFacts.

Local Open Scope Q_scope.

Definition isStatus (s : Log.Status) (low high : Q) (r : Log.Rec) : bool :=
  match Log.statusFor (Log.value r) low high, s with
  | Log.LOW, Log.LOW | Log.HIGH, Log.HIGH | Log.IN_RANGE, Log.IN_RANGE => true
  | _, _ => false
  end.

Lemma status_partition (low high : Q) (l : list Log.Rec) :
  (length (filter (isStatus Log.IN_RANGE low high) l)
   + length (filter (isStatus Log.LOW low high) l)
   + length (filter (isStatus Log.HIGH low high) l) = length l)%nat.
Proof.
  induction l as [|r l IH]; [reflexivity|].
  assert (Hone : ((if isStatus Log.IN_RANGE low high r then 1 else 0)
                  + (if isStatus Log.LOW low high r then 1 else 0)
                  + (if isStatus Log.HIGH low high r then 1 else 0) = 1)%nat).
  { unfold isStatus. now destruct (Log.statusFor (Log.value r) low high). }
  cbn [filter].
  destruct (isStatus Log.IN_RANGE low high r),
           (isStatus Log.LOW low high r),
           (isStatus Log.HIGH low high r); cbn [length]; lia.
Qed.

Lemma status_agrees (low high : Q) (r : Log.Rec) :
  low <= high ->
  Qle_bool low (Log.value r) && Qle_bool (Log.value r) high
    = isStatus Log.IN_RANGE low high r /\
  Qltb (Log.value r) low = isStatus Log.LOW low high r /\
  Qltb high (Log.value r) = isStatus Log.HIGH low high r.
Proof.
  intro H. unfold isStatus, Log.statusFor, Qltb.
  destruct (Qle_bool low (Log.value r)) eqn:E1,
           (Qle_bool (Log.value r) high) eqn:E2;
    cbn [negb andb]; try (repeat split; reflexivity).
  exfalso.
  assert (H1 : ~ low <= Log.value r).
  { intro Hc. apply Qle_bool_iff in Hc. congruence. }
  assert (H2 : ~ Log.value r <= high).
  { intro Hc. apply Qle_bool_iff in Hc. congruence. }
  apply Qnot_le_lt in H1, H2. Lqa.lra.
Qed.

(** X7.  For [low <= high] the summary's three counts partition the
    records: they add up to the total, and they are the numbers of
    records that [statusFor] labels IN RANGE, LOW and HIGH. *)
Theorem summary_partition (records : list Log.Rec) (low high : Q) :
  low <= high ->
  let s := Log.computeSummary records low high in
  Log.total s = length records /\
  (Log.inRange s + Log.lowCount s + Log.highCount s = Log.total s)%nat /\
  Log.inRange s = length (filter (isStatus Log.IN_RANGE low high) records) /\
  Log.lowCount s = length (filter (isStatus Log.LOW low high) records) /\
  Log.highCount s = length (filter (isStatus Log.HIGH low high) records).
Proof.
  intro H. cbv zeta. unfold Log.computeSummary.
  cbn [Log.total Log.inRange Log.lowCount Log.highCount].
  rewrite length_map.
  rewrite (filter_ext
             (fun r => Qle_bool low (Log.value r) && Qle_bool (Log.value r) high)
             (isStatus Log.IN_RANGE low high))
    by (intro r; apply (status_agrees low high r H)).
  rewrite (filter_ext (fun r => Qltb (Log.value r) low)
             (isStatus Log.LOW low high))
    by (intro r; apply (status_agrees low high r H)).
  rewrite (filter_ext (fun r => Qltb high (Log.value r))
             (isStatus Log.HIGH low high))
    by (intro r; apply (status_agrees low high r H)).
  split; [reflexivity|]. split; [apply status_partition|].
  repeat split.
Qed.

Lemma summary_partition_witness :
  let s := Log.computeSummary
             [Log.mkRec String.EmptyString 60 String.EmptyString
                String.EmptyString String.EmptyString;
              Log.mkRec String.EmptyString 100 String.EmptyString
                String.EmptyString String.EmptyString;
              Log.mkRec String.EmptyString 200 String.EmptyString
                String.EmptyString String.EmptyString] 70 180 in
  (Log.inRange s + Log.lowCount s + Log.highCount s = Log.total s)%nat.
Proof.
  cbv zeta. apply summary_partition. discriminate.
Defined.

Lemma round_ratio (i t : nat) :
  (0 < t)%nat ->
  round (ofNat i / ofNat t * 100) =
  ((200 * Z.of_nat i + Z.of_nat t) / (2 * Z.of_nat t))%Z.
Proof.
  intro Ht. unfold round. rewrite Zdiv_Qdiv. apply Qfloor_comp.
  unfold ofNat. rewrite inject_Z_plus, !inject_Z_mult.
  assert (Hnz : ~ inject_Z (Z.of_nat t) == 0).
  { intro E. pose proof (ofNat_pos t Ht) as Hp. unfold ofNat in Hp.
    rewrite E in Hp. discriminate. }
  change (inject_Z 200) with 200. change (inject_Z 2) with 2.
  field. exact Hnz.
Qed.

(** X8.  The time-in-range percentage is [null] exactly without
    records; otherwise it is a whole percentage between 0 and 100 that
    is nearest to [100 * inRange / total]: it is off by at most one
    half.  Which neighbour an exact half gives is left open: here a
    half goes up, while the product in doubles can fall just below the
    half and go down ((23 / 40) * 100 gives 57). *)
Theorem tirPct_nearest (records : list Log.Rec) (low high : Q) :
  let s := Log.computeSummary records low high in
  (Log.tirPct s = None <-> records = []) /\
  (forall p, Log.tirPct s = Some p ->
     (0 <= p <= 100)%Z /\
     ((2 * p - 1) * Z.of_nat (Log.total s) <= 200 * Z.of_nat (Log.inRange s)
      <= (2 * p + 1) * Z.of_nat (Log.total s))%Z).
Proof.
  cbv zeta. unfold Log.computeSummary.
  cbn [Log.total Log.inRange Log.tirPct]. rewrite length_map.
  set (i := length (filter _ records)).
  assert (Hi : (i <= length records)%nat) by apply filter_length_le.
  destruct (Nat.eqb_spec (length records) 0) as [Hz|Hnz].
  - split; [|discriminate].
    split; [intros _; now apply length_zero_iff_nil | reflexivity].
  - split.
    + split; [discriminate | intros ->; contradiction].
    + intros p Hp. injection Hp as <-.
      rewrite round_ratio by lia.
      set (t := Z.of_nat (length records)).
      set (a := (200 * Z.of_nat i + t)%Z).
      assert (Ht : (0 < t)%Z) by (subst t; lia).
      pose proof (Z.div_mod a (2 * t) ltac:(lia)) as Hdm.
      pose proof (Z.mod_pos_bound a (2 * t) ltac:(lia)) as Hmod.
      assert (Hia : (0 <= Z.of_nat i <= t)%Z) by (subst t; lia).
      split; [|subst a; nia].
      subst a. split; nia.
Qed.

End SummaryFacts.

(** ** Stored records: add, update, delete, undo *)

Section StoreFacts.

Lemma findIndex_none (i : String.string) (l : list Log.Rec) :
  (forall r, In r l -> Log.id r <> i) -> Log.findIndex i l = None.
Proof.
  induction l as [|r l IH]; intro H; [reflexivity|].
  cbn [Log.findIndex].
  destruct (String.eqb_spec (Log.id r) i) as [E|_].
  - exfalso. exact (H r (or_introl eq_refl) E).
  - rewrite IH; [reflexivity|]. intros x Hx. apply H. now right.
Qed.

(** [findIndex] finds the first record with the id. *)
Lemma findIndex_first (i : String.string) (l1 l2 : list Log.Rec) (r : Log.Rec) :
  Log.id r = i -> (forall x, In x l1 -> Log.id x <> i) ->
  Log.findIndex i (l1 ++ r :: l2) = Some (length l1).
Proof.
  intros Hr. induction l1 as [|x l1 IH]; intro H; cbn [app Log.findIndex length].
  - destruct (String.eqb_spec (Log.id r) i); [reflexivity | contradiction].
  - destruct (String.eqb_spec (Log.id x) i) as [E|_].
    + exfalso. exact (H x (or_introl eq_refl) E).
    + rewrite IH; [reflexivity|]. intros y Hy. apply H. now right.
Qed.

(** Every list holds no record with the id, or splits at the first one. *)
Lemma first_with_id (i : String.string) (l : list Log.Rec) :
  (forall r, In r l -> Log.id r <> i) \/
  exists l1 r l2, l = l1 ++ r :: l2 /\ Log.id r = i /\
                  forall x, In x l1 -> Log.id x <> i.
Proof.
  induction l as [|x l IH]; [left; intros r []|].
  destruct (String.eqb_spec (Log.id x) i) as [E|Hne].
  - right. exists [], x, l. repeat split; [exact E | intros y []].
  - destruct IH as [Hnone | (l1 & r & l2 & -> & Hr & H1)].
    + left. intros r [<-|Hr]; auto.
    + right. exists (x :: l1), r, l2. repeat split; [exact Hr|].
      intros y [<-|Hy]; auto.
Qed.

Lemma nth_error_middle (l1 l2 : list Log.Rec) (r : Log.Rec) :
  nth_error (l1 ++ r :: l2) (length l1) = Some r.
Proof. induction l1; [reflexivity | assumption]. Qed.

Lemma removeAt_middle (l1 l2 : list Log.Rec) (r : Log.Rec) :
  Log.removeAt (length l1) (l1 ++ r :: l2) = l1 ++ l2.
Proof.
  induction l1 as [|x l1 IH]; [reflexivity|].
  cbn [app length Log.removeAt]. now rewrite IH.
Qed.

Lemma setAt_middle (l1 l2 : list Log.Rec) (r v : Log.Rec) :
  Log.setAt (length l1) v (l1 ++ r :: l2) = l1 ++ v :: l2.
Proof.
  induction l1 as [|x l1 IH]; [reflexivity|].
  cbn [app length Log.setAt]. now rewrite IH.
Qed.

Lemma deleteRecord_missing (i : String.string) (st : Log.Store) :
  (forall r, In r (Log.records st) -> Log.id r <> i) ->
  Log.deleteRecord i st = st.
Proof. intro H. unfold Log.deleteRecord. now rewrite findIndex_none. Qed.

Lemma deleteRecord_found (i : String.string) (st : Log.Store)
    (l1 l2 : list Log.Rec) (r : Log.Rec) :
  Log.records st = l1 ++ r :: l2 -> Log.id r = i ->
  (forall x, In x l1 -> Log.id x <> i) ->
  Log.deleteRecord i st = Log.mkStore (l1 ++ l2) (Some r).
Proof.
  intros E Hr H1. unfold Log.deleteRecord. rewrite E.
  rewrite (findIndex_first i l1 l2 r Hr H1).
  now rewrite removeAt_middle, nth_error_middle.
Qed.

Lemma undo_after_delete (i : String.string) (st : Log.Store)
    (l1 l2 : list Log.Rec) (r : Log.Rec) :
  Log.records st = l1 ++ r :: l2 -> Log.id r = i ->
  (forall x, In x l1 -> Log.id x <> i) ->
  let st' := Log.undoDelete (Log.deleteRecord i st) in
  st' = Log.mkStore (l1 ++ l2 ++ [r]) None /\
  Permutation (Log.records st') (Log.records st) /\
  Log.undoDelete st' = st'.
Proof.
  intros E Hr H1. cbv zeta.
  rewrite (deleteRecord_found i st l1 l2 r E Hr H1).
  assert (Hu : Log.undoDelete (Log.mkStore (l1 ++ l2) (Some r)) =
               Log.mkStore (l1 ++ l2 ++ [r]) None).
  { unfold Log.undoDelete. cbn [Log.lastDeleted Log.records].
    now rewrite <- app_assoc. }
  rewrite Hu. split; [reflexivity|]. split; [|reflexivity].
  cbn [Log.records]. rewrite E.
  apply Permutation_app_head. symmetry. apply Permutation_cons_append.
Qed.

(** X9.  [deleteRecord] changes nothing, [lastDeleted] included, when no
    stored record has the id; otherwise it removes the first record
    with the id, keeps every other record in place (later records with
    the same id too) and remembers the removed one. *)
Theorem deleteRecord_first (i : String.string) (st : Log.Store) :
  ((forall r, In r (Log.records st) -> Log.id r <> i) ->
   Log.deleteRecord i st = st) /\
  (forall l1 r l2,
     Log.records st = l1 ++ r :: l2 -> Log.id r = i ->
     (forall x, In x l1 -> Log.id x <> i) ->
     Log.deleteRecord i st = Log.mkStore (l1 ++ l2) (Some r)).
Proof.
  split; [apply deleteRecord_missing|].
  intros l1 r l2. apply deleteRecord_found.
Qed.

(** X10.  Undoing a deletion puts the removed record back at the end of
    the array: the stored records are the same up to order, nothing is
    left to undo, and a second undo changes nothing. *)
Theorem undo_restores (i : String.string) (st : Log.Store)
    (l1 l2 : list Log.Rec) (r : Log.Rec) :
  Log.records st = l1 ++ r :: l2 -> Log.id r = i ->
  (forall x, In x l1 -> Log.id x <> i) ->
  let st' := Log.undoDelete (Log.deleteRecord i st) in
  st' = Log.mkStore (l1 ++ l2 ++ [r]) None /\
  Permutation (Log.records st') (Log.records st) /\
  Log.undoDelete st' = st'.
Proof. apply undo_after_delete. Qed.

Lemma undo_restores_witness :
  let a := Log.mkRec "a"%string 100 String.EmptyString String.EmptyString
             String.EmptyString in
  let b := Log.mkRec "b"%string 120 String.EmptyString String.EmptyString
             String.EmptyString in
  Log.undoDelete (Log.deleteRecord "a"%string (Log.mkStore [a; b] None)) =
  Log.mkStore [b; a] None.
Proof.
  cbv zeta.
  apply (undo_restores "a"%string
           (Log.mkStore
              [Log.mkRec "a"%string 100 String.EmptyString String.EmptyString
                 String.EmptyString;
               Log.mkRec "b"%string 120 String.EmptyString String.EmptyString
                 String.EmptyString] None)
           [] [Log.mkRec "b"%string 120 String.EmptyString String.EmptyString
                 String.EmptyString]).
  - reflexivity.
  - reflexivity.
  - intros x [].
Defined.

(** X11.  Only the last deletion can be undone: after two deletions
    that each found their record, undoing (once or twice) restores the
    second record and never the first. *)
Theorem undo_single_level (i1 i2 : String.string) (st : Log.Store) :
  (exists r, In r (Log.records st) /\ Log.id r = i1) ->
  (exists r, In r (Log.records (Log.deleteRecord i1 st)) /\ Log.id r = i2) ->
  let after := Log.undoDelete
                 (Log.undoDelete
                    (Log.deleteRecord i2 (Log.deleteRecord i1 st))) in
  exists r1,
    Log.lastDeleted (Log.deleteRecord i1 st) = Some r1 /\
    Permutation (Log.records after) (Log.records (Log.deleteRecord i1 st)) /\
    Permutation (r1 :: Log.records after) (Log.records st) /\
    after = Log.undoDelete (Log.deleteRecord i2 (Log.deleteRecord i1 st)) /\
    Log.lastDeleted after = None.
Proof.
  intros (x & Hx & Hxi) (y & Hy & Hyi). cbv zeta.
  destruct (first_with_id i1 (Log.records st))
    as [Hnone | (a1 & r1 & a2 & E1 & Hr1 & Ha1)].
  { exfalso. exact (Hnone x Hx Hxi). }
  pose proof (deleteRecord_found i1 st a1 a2 r1 E1 Hr1 Ha1) as D1.
  rewrite D1 in *. exists r1. split; [reflexivity|].
  set (s1 := Log.mkStore (a1 ++ a2) (Some r1)) in *.
  destruct (first_with_id i2 (Log.records s1))
    as [Hnone | (b1 & r2 & b2 & E2 & Hr2 & Hb1)].
  { exfalso. exact (Hnone y Hy Hyi). }
  pose proof (undo_after_delete i2 s1 b1 b2 r2 E2 Hr2 Hb1) as (Hu & Hp & Hidem).
  rewrite Hidem. split; [exact Hp|]. split; [|split; [reflexivity|]].
  - rewrite Hp. cbn [Log.records s1]. rewrite E1.
    apply Permutation_middle.
  - rewrite Hu. reflexivity.
Qed.

Lemma undo_single_level_witness :
  let a := Log.mkRec "a"%string 100 String.EmptyString String.EmptyString
             String.EmptyString in
  let b := Log.mkRec "b"%string 120 String.EmptyString String.EmptyString
             String.EmptyString in
  let c := Log.mkRec "c"%string 140 String.EmptyString String.EmptyString
             String.EmptyString in
  Log.undoDelete
    (Log.undoDelete
       (Log.deleteRecord "b"%string
          (Log.deleteRecord "a"%string (Log.mkStore [a; b; c] None)))) =
  Log.mkStore [c; b] None.
Proof.
  cbv zeta.
  destruct (undo_single_level "a"%string "b"%string
              (Log.mkStore
                 [Log.mkRec "a"%string 100 String.EmptyString String.EmptyString
                    String.EmptyString;
                  Log.mkRec "b"%string 120 String.EmptyString String.EmptyString
                    String.EmptyString;
                  Log.mkRec "c"%string 140 String.EmptyString String.EmptyString
                    String.EmptyString] None))
    as (r1 & _ & _ & _ & -> & _).
  - eexists. split; [left; reflexivity | reflexivity].
  - eexists. split; [left; reflexivity | reflexivity].
  - reflexivity.
Defined.

(** X12.  [updateRecord] changes nothing when no stored record has the
    id; otherwise it replaces the fields of the first record with the
    id and keeps its id, its place, every other record and
    [lastDeleted]. *)
Theorem updateRecord_first (i : String.string) (v : Q)
    (c d n : String.string) (st : Log.Store) :
  ((forall r, In r (Log.records st) -> Log.id r <> i) ->
   Log.updateRecord i v c d n st = st) /\
  (forall l1 r l2,
     Log.records st = l1 ++ r :: l2 -> Log.id r = i ->
     (forall x, In x l1 -> Log.id x <> i) ->
     Log.updateRecord i v c d n st =
     Log.mkStore (l1 ++ Log.mkRec i v c d n :: l2) (Log.lastDeleted st)) /\
  map Log.id (Log.records (Log.updateRecord i v c d n st)) =
  map Log.id (Log.records st).
Proof.
  assert (Hsome : forall l1 r l2,
            Log.records st = l1 ++ r :: l2 -> Log.id r = i ->
            (forall x, In x l1 -> Log.id x <> i) ->
            Log.updateRecord i v c d n st =
            Log.mkStore (l1 ++ Log.mkRec i v c d n :: l2) (Log.lastDeleted st)).
  { intros l1 r l2 E Hr H1. unfold Log.updateRecord. rewrite E.
    rewrite (findIndex_first i l1 l2 r Hr H1), nth_error_middle.
    rewrite setAt_middle. unfold Log.patched. now rewrite Hr. }
  assert (Hnone : (forall r, In r (Log.records st) -> Log.id r <> i) ->
                  Log.updateRecord i v c d n st = st).
  { intro H. unfold Log.updateRecord. now rewrite findIndex_none. }
  split; [exact Hnone|]. split; [exact Hsome|].
  destruct (first_with_id i (Log.records st)) as [H | (l1 & r & l2 & E & Hr & H1)].
  - now rewrite Hnone.
  - rewrite (Hsome l1 r l2 E Hr H1), E. cbn [Log.records].
    rewrite !map_app. cbn [map Log.id]. now rewrite Hr.
Qed.

(** X13.  A record added under an id that no stored record has is the
    one [deleteRecord] finds for that id: deleting it gives back the
    records as they were and leaves the new record to undo. *)
Theorem add_then_delete (newId : String.string) (v : Q)
    (c d n : String.string) (st : Log.Store) :
  (forall r, In r (Log.records st) -> Log.id r <> newId) ->
  Log.findIndex newId (Log.records (Log.addRecord newId v c d n st)) =
    Some (length (Log.records st)) /\
  Log.deleteRecord newId (Log.addRecord newId v c d n st) =
    Log.mkStore (Log.records st) (Some (Log.mkRec newId v c d n)).
Proof.
  intro Hfresh. unfold Log.addRecord. split.
  - cbn [Log.records]. now apply findIndex_first.
  - rewrite (deleteRecord_found newId
               (Log.mkStore (Log.records st ++ [Log.mkRec newId v c d n])
                  (Log.lastDeleted st))
               (Log.records st) [] (Log.mkRec newId v c d n)
               eq_refl eq_refl Hfresh).
    now rewrite app_nil_r.
Qed.

Lemma add_then_delete_witness :
  let a := Log.mkRec "a"%string 100 String.EmptyString String.EmptyString
             String.EmptyString in
  Log.deleteRecord "b"%string
    (Log.addRecord "b"%string 120 String.EmptyString String.EmptyString
       String.EmptyString (Log.mkStore [a] None)) =
  Log.mkStore [a]
    (Some (Log.mkRec "b"%string 120 String.EmptyString String.EmptyString
             String.EmptyString)).
Proof.
  cbv zeta.
  apply (add_then_delete "b"%string 120 String.EmptyString String.EmptyString
           String.EmptyString
           (Log.mkStore
              [Log.mkRec "a"%string 100 String.EmptyString String.EmptyString
                 String.EmptyString] None)).
  intros r [<-|[]]. discriminate.
Defined.

End StoreFacts.

(** ** Filtering and sorting the log *)

Section DateFacts.

Local Open Scope Q_scope.

Variable getTime : String.string -> Z.
Variable dateNow : Z.

Local Abbreviation withinDays := (Log.withinDays getTime dateNow).
Local Abbreviation filterRecords := (Log.filterRecords getTime dateNow).
Local Abbreviation sortRecords := (Log.sortRecords getTime).
Local Abbreviation time r := (getTime (Log.dtIso r)).

Lemma withinDays_monotone (dt : String.string) (d d' : Q) :
  d <= d' -> withinDays dt d = true -> withinDays dt d' = true.
Proof.
  unfold Log.withinDays. intros Hd H.
  destruct (Qle_bool 99999 d') eqn:E'; [reflexivity|].
  destruct (Qle_bool 99999 d) eqn:E.
  - apply Qle_bool_iff in E.
    assert (Hc : 99999 <= d') by Lqa.lra.
    apply Qle_bool_iff in Hc. congruence.
  - apply Qle_bool_iff in H. apply Qle_bool_iff. Lqa.lra.
Qed.

Lemma filter_twice {A} (f g : A -> bool) (l : list A) :
  filter f (filter g l) = filter (fun x => g x && f x) l.
Proof.
  induction l as [|x l IH]; [reflexivity|]. cbn [filter].
  destruct (g x); cbn [filter andb]; [destruct (f x)|]; now rewrite IH.
Qed.

(** X14.  A wider window never drops a record: every record kept for
    [days] is kept for any larger number of days.  The filter keeps
    the order of the records, keeps only the chosen context, and with
    the context ALL and 99999 days or more keeps every record. *)
Theorem filterRecords_window (records : list Log.Rec) (days : Q)
    (ctx : String.string) :
  (forall days', days <= days' ->
     incl (filterRecords records days ctx) (filterRecords records days' ctx)) /\
  (exists keep, filterRecords records days ctx = filter keep records) /\
  (ctx <> "ALL"%string ->
   Forall (fun r => Log.context r = ctx) (filterRecords records days ctx)) /\
  (99999 <= days -> filterRecords records days "ALL"%string = records).
Proof.
  unfold Log.filterRecords. repeat split.
  - intros days' Hd r Hr.
    apply filter_In in Hr as [Hr Hc]. apply filter_In in Hr as [Hr Hw].
    apply filter_In. split; [|exact Hc].
    apply filter_In. split; [exact Hr|].
    now apply (withinDays_monotone _ days).
  - eexists. rewrite filter_twice. reflexivity.
  - intro Hctx. apply Forall_forall. intros r Hr.
    apply filter_In in Hr as [_ Hc].
    destruct (String.eqb_spec ctx "ALL"%string); [contradiction|].
    now apply String.eqb_eq.
  - intro Hd. cbn [String.eqb Ascii.eqb Bool.eqb].
    rewrite forallb_filter_id by (apply forallb_forall; reflexivity).
    apply forallb_filter_id. apply forallb_forall. intros r _.
    unfold Log.withinDays. apply Qle_bool_iff in Hd. now rewrite Hd.
Qed.

Lemma compare_le (z : Z) : Qle_bool (inject_Z z) 0 = (z <=? 0)%Z.
Proof. unfold Qle_bool. cbn. now rewrite Z.mul_1_r. Qed.

(** X15.  [sortRecords] returns the same records, ordered by time:
    ascending for ASC, descending for any other order.  Records with
    equal times keep the order they had, in both directions. *)
Theorem sortRecords_ordered (records : list Log.Rec)
    (sortOrder : String.string) :
  Permutation (sortRecords records sortOrder) records /\
  (sortOrder = "ASC"%string ->
   StronglySorted (fun a b => (time a <= time b)%Z)
     (sortRecords records sortOrder)) /\
  (sortOrder <> "ASC"%string ->
   StronglySorted (fun a b => (time b <= time a)%Z)
     (sortRecords records sortOrder)) /\
  (forall t,
     filter (fun r => (time r =? t)%Z) (sortRecords records sortOrder) =
     filter (fun r => (time r =? t)%Z) records).
Proof.
  unfold Log.sortRecords. split; [apply sort_perm|]. split; [|split].
  - intros ->. cbn [String.eqb Ascii.eqb Bool.eqb].
    apply sort_sorted.
    + intros a b H. rewrite compare_le in H. apply Z.leb_le in H. lia.
    + intros a b H. rewrite compare_le in H. apply Z.leb_gt in H. lia.
    + intros a b c. apply Z.le_trans.
  - intro Hne. destruct (String.eqb_spec sortOrder "ASC"%string);
      [contradiction|].
    apply sort_sorted.
    + intros a b H. rewrite compare_le in H. apply Z.leb_le in H. lia.
    + intros a b H. rewrite compare_le in H. apply Z.leb_gt in H. lia.
    + intros a b c H1 H2. lia.
  - intro t. apply sort_filter. intros x y Hx Hy.
    apply Z.eqb_eq in Hx, Hy. rewrite compare_le. apply Z.leb_le.
    rewrite Hx, Hy, Z.sub_diag. reflexivity.
Qed.

End DateFacts.

(** ** Escaping *)

Section HtmlFacts.

Import Ascii.AsciiSyntax.

(** What [escapeHtml] makes of one character. *)
Definition escaped (c : Ascii.ascii) : String.string :=
  if Ascii.eqb c Html.amp then "&amp;"%string
  else if Ascii.eqb c Html.lt then "&lt;"%string
  else if Ascii.eqb c Html.gt then "&gt;"%string
  else if Ascii.eqb c Html.quot then "&quot;"%string
  else String.String c String.EmptyString.

Fixpoint escapeEach (s : String.string) : String.string :=
  match s with
  | String.EmptyString => String.EmptyString
  | String.String c s' => String.append (escaped c) (escapeEach s')
  end.

(** Reads an escaped string back. *)
Fixpoint unescape (s : String.string) : String.string :=
  match s with
  | String.EmptyString => String.EmptyString
  | String.String c s' =>
      if Ascii.eqb c Html.amp then
        match s' with
        | String.String "a" (String.String "m" (String.String "p"
            (String.String ";" r))) => String.String Html.amp (unescape r)
        | String.String "l" (String.String "t" (String.String ";" r)) =>
            String.String Html.lt (unescape r)
        | String.String "g" (String.String "t" (String.String ";" r)) =>
            String.String Html.gt (unescape r)
        | String.String "q" (String.String "u" (String.String "o"
            (String.String "t" (String.String ";" r)))) =>
            String.String Html.quot (unescape r)
        | _ => String.String c (unescape s')
        end
      else String.String c (unescape s')
  end.

Lemma string_append_assoc (a b c : String.string) :
  String.append (String.append a b) c = String.append a (String.append b c).
Proof.
  induction a as [|x a IH]; [reflexivity|].
  cbn [String.append]. now rewrite IH.
Qed.

Lemma replaceAll_append (c : Ascii.ascii) (r a b : String.string) :
  Html.replaceAll c r (String.append a b) =
  String.append (Html.replaceAll c r a) (Html.replaceAll c r b).
Proof.
  induction a as [|x a IH]; [reflexivity|].
  cbn [String.append Html.replaceAll].
  destruct (Ascii.eqb x c); cbn [String.append]; rewrite IH;
    [now rewrite string_append_assoc | reflexivity].
Qed.

(** The four replacements in a row escape each character on its own:
    an entity written by an earlier replacement is not escaped again. *)
Lemma escapeHtml_each (s : String.string) :
  Html.escapeHtml (Some s) = escapeEach s.
Proof.
  unfold Html.escapeHtml. induction s as [|x s IH]; [reflexivity|].
  cbn [escapeEach]. rewrite <- IH. unfold escaped.
  cbn [Html.replaceAll].
  destruct (Ascii.eqb_spec x Html.amp) as [->|Ha].
  { rewrite !replaceAll_append. reflexivity. }
  cbn [Html.replaceAll].
  destruct (Ascii.eqb_spec x Html.lt) as [->|Hl].
  { rewrite !replaceAll_append. reflexivity. }
  cbn [Html.replaceAll].
  destruct (Ascii.eqb_spec x Html.gt) as [->|Hg].
  { rewrite !replaceAll_append. reflexivity. }
  cbn [Html.replaceAll].
  destruct (Ascii.eqb_spec x Html.quot) as [->|Hq]; reflexivity.
Qed.

Lemma unescape_each (s : String.string) : unescape (escapeEach s) = s.
Proof.
  induction s as [|x s IH]; [reflexivity|].
  cbn [escapeEach]. unfold escaped.
  destruct (Ascii.eqb_spec x Html.amp) as [->|Ha].
  { cbn. now rewrite IH. }
  destruct (Ascii.eqb_spec x Html.lt) as [->|Hl].
  { cbn. now rewrite IH. }
  destruct (Ascii.eqb_spec x Html.gt) as [->|Hg].
  { cbn. now rewrite IH. }
  destruct (Ascii.eqb_spec x Html.quot) as [->|Hq].
  { cbn. now rewrite IH. }
  cbn [String.append unescape].
  destruct (Ascii.eqb_spec x Html.amp); [contradiction|]. now rewrite IH.
Qed.

Lemma in_append (c : Ascii.ascii) (a b : String.string) :
  In c (String.list_ascii_of_string (String.append a b)) ->
  In c (String.list_ascii_of_string a) \/ In c (String.list_ascii_of_string b).
Proof.
  induction a as [|x a IH]; cbn; [now right|].
  intros [->|H]; [left; now left|].
  destruct (IH H); [left; now right | now right].
Qed.

(** X16.  The escaped text holds no [<], no [>] and no double quote,
    whatever the input. *)
Theorem escapeHtml_safe (s : option String.string) (c : Ascii.ascii) :
  In c (String.list_ascii_of_string (Html.escapeHtml s)) ->
  c <> Html.lt /\ c <> Html.gt /\ c <> Html.quot.
Proof.
  destruct s as [s|]; [|intros []].
  rewrite escapeHtml_each. induction s as [|x s IH]; [intros []|].
  cbn [escapeEach]. intro H. apply in_append in H as [H|H]; [|now apply IH].
  unfold escaped in H.
  destruct (Ascii.eqb_spec x Html.amp);
    [cbn in H; repeat (destruct H as [<-|H]; [repeat split; discriminate|]);
     destruct H|].
  destruct (Ascii.eqb_spec x Html.lt);
    [cbn in H; repeat (destruct H as [<-|H]; [repeat split; discriminate|]);
     destruct H|].
  destruct (Ascii.eqb_spec x Html.gt);
    [cbn in H; repeat (destruct H as [<-|H]; [repeat split; discriminate|]);
     destruct H|].
  destruct (Ascii.eqb_spec x Html.quot);
    [cbn in H; repeat (destruct H as [<-|H]; [repeat split; discriminate|]);
     destruct H|].
  cbn in H. destruct H as [<-|[]]. repeat split; assumption.
Qed.

Lemma escapeHtml_safe_witness :
  Ascii.ascii_of_nat 59 <> Html.lt /\ Ascii.ascii_of_nat 59 <> Html.gt /\
  Ascii.ascii_of_nat 59 <> Html.quot.
Proof.
  apply (escapeHtml_safe (Some "<b>"%string)). vm_compute. tauto.
Defined.

(** X17.  Escaping loses nothing: two different texts never have the
    same escaped form. *)
Theorem escapeHtml_injective (s1 s2 : String.string) :
  s1 <> s2 -> Html.escapeHtml (Some s1) <> Html.escapeHtml (Some s2).
Proof.
  rewrite !escapeHtml_each. intros Hne H. apply Hne.
  rewrite <- (unescape_each s1), <- (unescape_each s2). now rewrite H.
Qed.

(** A [<] and the text of its own entity are escaped differently. *)
Lemma escapeHtml_injective_witness :
  Html.escapeHtml (Some "<"%string) <> Html.escapeHtml (Some "&lt;"%string).
Proof. apply escapeHtml_injective. discriminate. Defined.

End HtmlFacts.

(** ** The predicted curve *)

Section PredictionFacts.

Local Open Scope R_scope.

Lemma shape_le_1 (x : R) : Generator.shape x <= 1.
Proof.
  unfold Generator.shape.
  pose proof (exp_ineq1_le (x - 1)) as H.
  pose proof (exp_pos (1 - x)) as Hp.
  assert (E : exp (x - 1) * exp (1 - x) = 1).
  { rewrite <- exp_plus. replace (x - 1 + (1 - x)) with 0 by ring.
    apply exp_0. }
  apply Rle_trans with (exp (x - 1) * exp (1 - x)); [|lra].
  apply Rmult_le_compat_r; lra.
Qed.

Lemma shape_nonneg (x : R) : 0 <= x -> 0 <= Generator.shape x.
Proof.
  intro H. unfold Generator.shape.
  apply Rmult_le_pos; [exact H | left; apply exp_pos].
Qed.

(** The absorption curve stays between 0 and the peak rise. *)
Lemma absorption_range (peakRise t peakMin : R) :
  0 <= peakRise -> 0 <= t ->
  0 <= Generator.absorption peakRise t peakMin <= peakRise.
Proof.
  intros Hp Ht. unfold Generator.absorption. cbv zeta.
  assert (Hm : 0 < Rmax 1 peakMin).
  { apply Rlt_le_trans with 1; [lra | apply Rmax_l]. }
  assert (Hx : 0 <= t / Rmax 1 peakMin).
  { apply Rmult_le_pos; [exact Ht | left; now apply Rinv_0_lt_compat]. }
  pose proof (shape_nonneg _ Hx) as H0.
  pose proof (shape_le_1 (t / Rmax 1 peakMin)) as H1.
  split.
  - now apply Rmult_le_pos.
  - rewrite <- (Rmult_1_r peakRise) at 2.
    now apply Rmult_le_compat_l.
Qed.

Lemma curveLoop_times (currentBg gramsSugar mgdlPerGram peakMin : R)
    (horizonMin : Z) (activityFactor : R) (fuel : nat) :
  forall t,
    ((t <= horizonMin)%Z -> (Z.to_nat (horizonMin - t) < fuel)%nat) ->
    map Generator.tMin
      (Generator.curveLoop currentBg gramsSugar mgdlPerGram peakMin
         horizonMin activityFactor fuel t) =
    map (fun k => (t + 10 * Z.of_nat k)%Z)
      (seq 0 (Z.to_nat ((horizonMin - t) / 10 + 1))).
Proof.
  assert (Hpast : forall t, (horizonMin < t)%Z ->
            Z.to_nat ((horizonMin - t) / 10 + 1) = 0%nat).
  { intros t Hgt. assert ((horizonMin - t) / 10 < 0)%Z; [|lia].
    apply Z.div_lt_upper_bound; lia. }
  induction fuel as [|fuel IH]; intros t Hfuel.
  { destruct (Z.leb_spec t horizonMin) as [Hle|Hgt];
      [specialize (Hfuel Hle); lia|].
    now rewrite Hpast. }
  cbn [Generator.curveLoop].
  destruct (Z.leb_spec t horizonMin) as [Hle|Hgt].
  - specialize (Hfuel Hle). cbn [map Generator.tMin]. rewrite IH by lia.
    assert (E : ((horizonMin - t) / 10 + 1
                 = (horizonMin - (t + 10)) / 10 + 1 + 1)%Z).
    { replace (horizonMin - t)%Z with (horizonMin - (t + 10) + 1 * 10)%Z by lia.
      rewrite Z.div_add by lia. lia. }
    rewrite E.
    assert (Hnn : (0 <= (horizonMin - (t + 10)) / 10 + 1)%Z).
    { assert (-1 <= (horizonMin - (t + 10)) / 10)%Z; [|lia].
      apply Z.div_le_lower_bound; lia. }
    rewrite (Z2Nat.inj_add ((horizonMin - (t + 10)) / 10 + 1) 1) by lia.
    rewrite Nat.add_comm. change (Z.to_nat 1) with 1%nat.
    cbn [Nat.add seq map]. f_equal; [lia|].
    rewrite <- seq_shift, map_map. apply map_ext. intro k. lia.
  - now rewrite Hpast.
Qed.

(** X18.  [predictSugarCurve] returns one point every 10 minutes from 0
    up to the horizon, so none for a negative horizon; each point adds
    the absorption curve to the current value, and the first point is
    the current value itself. *)
Theorem predictSugarCurve_grid (currentBg gramsSugar mgdlPerGram peakMin : R)
    (horizonMin : Z) (activityFactor : R) :
  let curve := Generator.predictSugarCurve currentBg gramsSugar mgdlPerGram
                 peakMin horizonMin activityFactor in
  map Generator.tMin curve =
    map (fun k => (10 * Z.of_nat k)%Z) (seq 0 (Z.to_nat (horizonMin / 10 + 1))) /\
  (horizonMin < 0 -> curve = [])%Z /\
  (0 <= horizonMin ->
   exists rest, curve = Generator.mkCurvePoint 0 (currentBg + 0) :: rest)%Z.
Proof.
  cbv zeta. unfold Generator.predictSugarCurve. split; [|split].
  - rewrite curveLoop_times by lia. rewrite Z.sub_0_r. reflexivity.
  - intro H. rewrite Nat.add_comm. cbn [Nat.add Generator.curveLoop].
    destruct (Z.leb_spec 0 horizonMin); [lia | reflexivity].
  - intro H. rewrite Nat.add_comm. cbn [Nat.add Generator.curveLoop].
    destruct (Z.leb_spec 0 horizonMin); [|lia].
    rewrite absorption_at_zero. eexists. reflexivity.
Qed.

Lemma curveLoop_nonneg (currentBg gramsSugar mgdlPerGram peakMin : R)
    (horizonMin : Z) (activityFactor : R) (fuel : nat) :
  forall t, (0 <= t)%Z ->
    Forall (fun p => (0 <= Generator.tMin p)%Z)
      (Generator.curveLoop currentBg gramsSugar mgdlPerGram peakMin
         horizonMin activityFactor fuel t).
Proof.
  induction fuel as [|fuel IH]; intros t Ht; cbn [Generator.curveLoop].
  - constructor.
  - destruct (t <=? horizonMin)%Z; constructor; [exact Ht|].
    apply IH. lia.
Qed.

(** X19.  With a non-negative peak rise
    ([gramsSugar * mgdlPerGram * activityFactor]) every predicted value
    lies between the current value and the current value plus the peak
    rise: the curve never overshoots its stated peak. *)
Theorem predictSugarCurve_range (currentBg gramsSugar mgdlPerGram peakMin : R)
    (horizonMin : Z) (activityFactor : R) :
  0 <= gramsSugar * mgdlPerGram * activityFactor ->
  Forall (fun p =>
            currentBg <= Generator.cbg p <=
            currentBg + gramsSugar * mgdlPerGram * activityFactor)
    (Generator.predictSugarCurve currentBg gramsSugar mgdlPerGram peakMin
       horizonMin activityFactor).
Proof.
  intro Hp. unfold Generator.predictSugarCurve.
  pose proof (curveLoop_points currentBg gramsSugar mgdlPerGram peakMin
                horizonMin activityFactor (Z.to_nat horizonMin + 1) 0) as Hpts.
  pose proof (curveLoop_nonneg currentBg gramsSugar mgdlPerGram peakMin
                horizonMin activityFactor (Z.to_nat horizonMin + 1) 0
                ltac:(lia)) as Hnn.
  rewrite Forall_forall in *. intros p Hin.
  rewrite (Hpts p Hin).
  destruct (absorption_range (gramsSugar * mgdlPerGram * activityFactor)
              (IZR (Generator.tMin p)) peakMin Hp) as [H0 H1].
  - apply IZR_le. now apply Hnn.
  - lra.
Qed.

Lemma predictSugarCurve_range_witness :
  Forall (fun p => 100 <= Generator.cbg p <= 100 + 30 * (14 / 10) * 1)
    (Generator.predictSugarCurve 100 30 (14 / 10) 45 180 1).
Proof. apply predictSugarCurve_range. lra. Defined.

End PredictionFacts.

(** ** The generator's schedules *)

Section ScheduleFacts.

Local Open Scope R_scope.

Lemma Rround_between (x : R) (a b : Z) :
  IZR a <= x + / 2 -> x + / 2 < IZR b ->
  (a <= Generator.Rround x < b)%Z.
Proof.
  intros Ha Hb. unfold Generator.Rround.
  destruct (base_Int_part (x + / 2)) as [H1 H2]. split.
  - assert (H : (a < Int_part (x + / 2) + 1)%Z); [|lia].
    apply lt_IZR. rewrite plus_IZR. lra.
  - apply lt_IZR. lra.
Qed.

Variable rng : nat -> R.

Lemma mealSugars_cons (t : Z) (ts : list Z) (n : nat) :
  Generator.mealSugars (t :: ts) rng n =
  ((20 + Generator.Rround (rng n * 60))%Z
     :: fst (Generator.mealSugars ts rng (S n)),
   snd (Generator.mealSugars ts rng (S n))).
Proof.
  cbn [Generator.mealSugars]. unfold Generator.bind, Generator.random.
  now destruct (Generator.mealSugars ts rng (S n)).
Qed.

Lemma mealSchedule_succ (c : nat) (d : Z) (n : nat) :
  Generator.mealSchedule (S c) d rng n =
  ((d * 24 * 60 + 8 * 60 + Generator.Rround ((rng n - 1 / 2) * 45))%Z
     :: (d * 24 * 60 + 13 * 60
         + Generator.Rround ((rng (S n) - 1 / 2) * 60))%Z
     :: (d * 24 * 60 + 19 * 60
         + Generator.Rround ((rng (S (S n)) - 1 / 2) * 60))%Z
     :: fst (Generator.mealSchedule c (d + 1) rng (S (S (S n)))),
   snd (Generator.mealSchedule c (d + 1) rng (S (S (S n))))).
Proof.
  cbn [Generator.mealSchedule]. unfold Generator.bind, Generator.random.
  now destruct (Generator.mealSchedule c (d + 1) rng (S (S (S n)))).
Qed.


Hypothesis rng_unit : forall k, 0 <= rng k < 1.

Lemma mealSugars_range (ts : list Z) :
  forall n,
    length (fst (Generator.mealSugars ts rng n)) = length ts /\
    Forall (fun g => (20 <= g <= 80)%Z) (fst (Generator.mealSugars ts rng n)).
Proof.
  induction ts as [|t ts IH]; intro n.
  - split; [reflexivity | constructor].
  - rewrite mealSugars_cons. cbn [fst length].
    destruct (IH (S n)) as [Hlen Hall].
    split; [now rewrite Hlen|]. constructor; [|exact Hall].
    destruct (rng_unit n) as [H0 H1].
    destruct (Rround_between (rng n * 60) 0 61); lra || lia.
Qed.

Lemma mealSchedule_order (n : nat) :
  forall d k,
    let ts := fst (Generator.mealSchedule n d rng k) in
    length ts = (3 * n)%nat /\
    StronglySorted Z.lt ts /\
    Forall (fun t => (d * 1440 + 458 <= t <= (d + Z.of_nat n) * 1440 - 270)%Z) ts.
Proof.
  induction n as [|n IH]; intros d k; cbv zeta.
  - cbn. repeat split; constructor.
  - rewrite mealSchedule_succ. cbn [fst length].
    destruct (IH (d + 1)%Z (S (S (S k)))) as (Hlen & Hsort & Hall).
    set (rest := fst (Generator.mealSchedule n (d + 1) rng (S (S (S k))))) in *.
    destruct (rng_unit k) as [A0 A1].
    destruct (rng_unit (S k)) as [B0 B1].
    destruct (rng_unit (S (S k))) as [C0 C1].
    destruct (Rround_between ((rng k - 1 / 2) * 45) (-22) 23) as [J1 J1'];
      [lra | lra |].
    destruct (Rround_between ((rng (S k) - 1 / 2) * 60) (-30) 31) as [J2 J2'];
      [lra | lra |].
    destruct (Rround_between ((rng (S (S k)) - 1 / 2) * 60) (-30) 31)
      as [J3 J3']; [lra | lra |].
    set (j1 := Generator.Rround ((rng k - 1 / 2) * 45)) in *.
    set (j2 := Generator.Rround ((rng (S k) - 1 / 2) * 60)) in *.
    set (j3 := Generator.Rround ((rng (S (S k)) - 1 / 2) * 60)) in *.
    rewrite Forall_forall in Hall.
    split; [lia|]. split.
    + repeat constructor; try lia; try exact Hsort.
      all: apply Forall_forall; intros t Ht; specialize (Hall t Ht); lia.
    + repeat constructor; try lia.
      apply Forall_forall. intros t Ht. specialize (Hall t Ht). lia.
Qed.

(** The three meals of each day: breakfast within 22 minutes of 8:00,
    lunch within 30 minutes of 13:00, dinner within 30 minutes of
    19:00. *)
Lemma mealSchedule_days (n : nat) :
  forall d k j, (j < n)%nat ->
    let ts := fst (Generator.mealSchedule n d rng k) in
    let dayStart := ((d + Z.of_nat j) * 1440)%Z in
    (dayStart + 458 <= nth (3 * j) ts 0 <= dayStart + 502)%Z /\
    (dayStart + 750 <= nth (3 * j + 1) ts 0 <= dayStart + 810)%Z /\
    (dayStart + 1110 <= nth (3 * j + 2) ts 0 <= dayStart + 1170)%Z.
Proof.
  induction n as [|n IH]; intros d k j Hj; cbv zeta; [lia|].
  rewrite mealSchedule_succ. cbn [fst].
  destruct j as [|j].
  - cbn [Nat.mul Nat.add nth].
    destruct (rng_unit k) as [A0 A1].
    destruct (rng_unit (S k)) as [B0 B1].
    destruct (rng_unit (S (S k))) as [C0 C1].
    destruct (Rround_between ((rng k - 1 / 2) * 45) (-22) 23) as [J1 J1'];
      [lra | lra |].
    destruct (Rround_between ((rng (S k) - 1 / 2) * 60) (-30) 31) as [J2 J2'];
      [lra | lra |].
    destruct (Rround_between ((rng (S (S k)) - 1 / 2) * 60) (-30) 31)
      as [J3 J3']; [lra | lra |].
    lia.
  - replace (3 * S j)%nat with (S (S (S (3 * j)))) by lia.
    cbn [Nat.add nth].
    specialize (IH (d + 1)%Z (S (S (S k))) j ltac:(lia)). cbv zeta in IH.
    replace ((d + Z.of_nat (S j)) * 1440)%Z
      with ((d + 1 + Z.of_nat j) * 1440)%Z by lia.
    exact IH.
Qed.


End ScheduleFacts.

(** X20.  With every draw in [0, 1) the meal schedule holds three meals
    for each day, each inside its own day: on day [d] (counted from 0)
    breakfast is 458 to 502 minutes after the day's start, lunch 750 to
    810 and dinner 1110 to 1170.  So the meal times increase strictly;
    and every meal's sugar is between 20 and 80 grams. *)
Theorem meal_schedule (rng : nat -> R) (days : nat) (k : nat) :
  (forall i, (0 <= rng i < 1)%R) ->
  let mealTimes := fst (Generator.mealSchedule days 0 rng k) in
  length mealTimes = (3 * days)%nat /\
  (forall d, (d < days)%nat ->
     (Z.of_nat d * 1440 + 458 <= nth (3 * d) mealTimes 0
      <= Z.of_nat d * 1440 + 502)%Z /\
     (Z.of_nat d * 1440 + 750 <= nth (3 * d + 1) mealTimes 0
      <= Z.of_nat d * 1440 + 810)%Z /\
     (Z.of_nat d * 1440 + 1110 <= nth (3 * d + 2) mealTimes 0
      <= Z.of_nat d * 1440 + 1170)%Z) /\
  StronglySorted Z.lt mealTimes /\
  (forall n,
     length (fst (Generator.mealSugars mealTimes rng n)) = length mealTimes /\
     Forall (fun g => (20 <= g <= 80)%Z)
       (fst (Generator.mealSugars mealTimes rng n))).
Proof.
  intro H. cbv zeta.
  destruct (mealSchedule_order rng H days 0%Z k) as (Hlen & Hsort & _).
  split; [exact Hlen|]. split; [|split; [exact Hsort|]].
  - intros d Hd.
    pose proof (mealSchedule_days rng H days 0%Z k d Hd) as Hday.
    cbv zeta in Hday. rewrite Z.add_0_l in Hday. exact Hday.
  - intro n. apply mealSugars_range. exact H.
Qed.

(** With every draw at one half nothing is shifted: over two days the
    schedule has six meals, and the second day's lunch (the fifth
    meal) is on the second day, between 12:30 and 13:30. *)
Lemma meal_schedule_witness :
  length (fst (Generator.mealSchedule 2 0 (fun _ => (1 / 2)%R) 0%nat)) = 6%nat /\
  (1440 + 750
   <= nth 4 (fst (Generator.mealSchedule 2 0 (fun _ => (1 / 2)%R) 0%nat)) 0
   <= 1440 + 810)%Z.
Proof.
  destruct (meal_schedule (fun _ => (1 / 2)%R) 2 0%nat) as (Hlen & Hday & _).
  - intro i. lra.
  - split; [exact Hlen|].
    destruct (Hday 1%nat ltac:(lia)) as (_ & Hlunch & _). exact Hlunch.
Defined.



(** ** The generator's sampling grid *)

Section GridFacts.

Variables dateNow days approxPoints : Z.

Local Abbreviation total := (Generator.totalMinutes days).
Local Abbreviation start := (Generator.startMs dateNow days).
Local Abbreviation mainLoop := (Generator.mainLoop dateNow days approxPoints).

Lemma mainLoop_times (mt ms he hy : list Z) (s : Z) (fuel : nat) :
  Generator.stepMin days approxPoints = Fin s ->
  forall (m : Z) (rng : nat -> R) (n : nat),
    ((m <= total)%Z -> (Z.to_nat (total - m) < fuel)%nat) ->
    map Generator.tMs (fst (mainLoop mt ms he hy fuel m rng n)) =
    map (fun k => (start + (m + s * Z.of_nat k) * 60 * 1000)%Z)
      (seq 0 (Z.to_nat ((total - m) / s + 1))).
Proof.
  intro Hs.
  assert (H5 : (5 <= s)%Z).
  { destruct (stepMin_cases days approxPoints) as [(s' & Hs' & H5) | [Hn|Hn]];
      congruence. }
  assert (Hpast : forall m, (total < m)%Z ->
            Z.to_nat ((total - m) / s + 1) = 0%nat).
  { intros m Hgt. assert ((total - m) / s < 0)%Z; [|lia].
    apply Z.div_lt_upper_bound; lia. }
  induction fuel as [|fuel IH]; intros m rng n Hfuel.
  { destruct (Z.leb_spec m total) as [Hle|Hgt];
      [specialize (Hfuel Hle); lia|].
    now rewrite Hpast. }
  destruct (Z.leb_spec m total) as [Hle|Hgt].
  - specialize (Hfuel Hle).
    destruct (mainLoop_step dateNow days approxPoints mt ms he hy fuel m rng n Hle)
      as (v & rest & n1 & -> & Hrest).
    rewrite Hs in Hrest. subst rest. cbn [map Generator.tMs].
    rewrite IH by lia.
    assert (E : ((total - m) / s + 1 = (total - (m + s)) / s + 1 + 1)%Z).
    { replace (total - m)%Z with (total - (m + s) + 1 * s)%Z by lia.
      rewrite Z.div_add by lia. lia. }
    rewrite E.
    assert (Hnn : (0 <= (total - (m + s)) / s + 1)%Z).
    { assert (-1 <= (total - (m + s)) / s)%Z; [|lia].
      apply Z.div_le_lower_bound; lia. }
    rewrite (Z2Nat.inj_add ((total - (m + s)) / s + 1) 1) by lia.
    rewrite Nat.add_comm. change (Z.to_nat 1) with 1%nat.
    cbn [Nat.add seq map]. f_equal; [lia|].
    rewrite <- seq_shift, map_map. apply map_ext. intro k. lia.
  - rewrite mainLoop_done by lia. now rewrite Hpast.
Qed.

End GridFacts.

Lemma round_div (a b : Z) :
  (0 < b)%Z ->
  round (inject_Z a / inject_Z b) = ((2 * a + b) / (2 * b))%Z.
Proof.
  intro Hb. unfold round. rewrite Zdiv_Qdiv. apply Qfloor_comp.
  rewrite inject_Z_plus, !inject_Z_mult.
  assert (Hnz : ~ (inject_Z b == 0)%Q).
  { intro E. assert (Hp : (inject_Z 0 < inject_Z b)%Q) by (rewrite <- Zlt_Qlt; lia).
    rewrite E in Hp. discriminate. }
  change (inject_Z 2) with 2%Q.
  field. exact Hnz.
Qed.

(** X22.  With a finite step and non-negative days the generated series
    lies on a uniform grid: the [k]-th point is [k] steps after the
    start, for [k] from 0 to [totalMinutes / stepMin]. *)
Theorem generated_grid (dateNow days approxPoints s : Z)
    (rng : nat -> R) (n : nat) :
  Generator.stepMin days approxPoints = Fin s ->
  (0 <= days)%Z ->
  map Generator.tMs
    (fst (Generator.generateSyntheticSeries dateNow days approxPoints rng n)) =
  map (fun k => (Generator.startMs dateNow days
                 + Z.of_nat k * s * 60 * 1000)%Z)
    (seq 0 (Z.to_nat (Generator.totalMinutes days / s + 1))).
Proof.
  intros Hs Hdays.
  unfold Generator.generateSyntheticSeries.
  unfold Generator.bind at 1.
  destruct (Generator.mealSchedule _ _ rng n) as [mt n1].
  unfold Generator.bind at 1.
  destruct (Generator.mealSugars mt rng n1) as [ms n2].
  unfold Generator.bind at 1.
  destruct (Generator.drawEvents days _ rng n2) as [he n3].
  unfold Generator.bind at 1.
  destruct (Generator.drawEvents days _ rng n3) as [hy n4].
  rewrite (mainLoop_times dateNow days approxPoints mt ms he hy s _ Hs) by lia.
  rewrite Z.sub_0_r. apply map_ext. intro k. lia.
Qed.

Lemma generated_grid_witness :
  map Generator.tMs
    (fst (Generator.generateSyntheticSeries 0 90 500 (fun _ => 0%R) 0%nat)) =
  map (fun k => (Generator.startMs 0 90 + Z.of_nat k * 259 * 60 * 1000)%Z)
    (seq 0 501).
Proof.
  apply (generated_grid 0 90 500 259 (fun _ => 0%R) 0%nat).
  - vm_compute. reflexivity.
  - lia.
Defined.

(** X23.  For whole numbers of days in 7..180 and of points in
    100..5000, the bounds [generateTestSet] clamps to, the step is
    finite and at least 5 minutes and the series has at least 100
    points: enough for [backtest], which needs 20. *)
Theorem generated_enough (dateNow days approxPoints : Z)
    (rng : nat -> R) (n : nat) :
  (7 <= days <= 180)%Z -> (100 <= approxPoints <= 5000)%Z ->
  exists s,
    Generator.stepMin days approxPoints = Fin s /\ (5 <= s)%Z /\
    (100 <= length (fst (Generator.generateSyntheticSeries
                           dateNow days approxPoints rng n)))%nat.
Proof.
  intros Hd Hp.
  assert (Hs : Generator.stepMin days approxPoints =
               Fin (Z.max 5 ((2 * Generator.totalMinutes days + approxPoints)
                             / (2 * approxPoints)))).
  { unfold Generator.stepMin. rewrite js_div_finite.
    - cbn [js_round js_max]. now rewrite round_div by lia.
    - intro E. assert (Hp' : (inject_Z 0 < inject_Z approxPoints)%Q)
        by (rewrite <- Zlt_Qlt; lia).
      rewrite E in Hp'. discriminate. }
  eexists. split; [exact Hs|]. split; [lia|].
  rewrite (generated_series_length dateNow days approxPoints _ rng n Hs)
    by lia.
  set (t := Generator.totalMinutes days).
  assert (Ht : (10080 <= t)%Z) by (subst t; unfold Generator.totalMinutes; lia).
  set (q := ((2 * t + approxPoints) / (2 * approxPoints))%Z).
  assert (Hq : (q * (2 * approxPoints) <= 2 * t + approxPoints)%Z).
  { subst q. rewrite Z.mul_comm. apply Z.mul_div_le. lia. }
  assert (H99 : (99 * Z.max 5 q <= t)%Z).
  { apply Z.max_case_strong; intros; [lia|]. nia. }
  assert (99 <= t / Z.max 5 q)%Z.
  { apply Z.div_le_lower_bound; lia. }
  lia.
Qed.

Lemma generated_enough_witness :
  exists s,
    Generator.stepMin 7 5000 = Fin s /\ (5 <= s)%Z /\
    (100 <= length (fst (Generator.generateSyntheticSeries
                           0 7 5000 (fun _ => 0%R) 0%nat)))%nat.
Proof. apply generated_enough; lia. Defined.

(** ** The confusion counts *)

Section ConfusionFacts.

Variable series : list Sample.
Variables low high horizonMin : Q.

Local Abbreviation run := (steps series low high horizonMin).

(** The counters of a report, as counts over the log. *)
Lemma report_counts (r : Report) :
  backtest series low high horizonMin = Some r ->
  rTP (baseline r) = count (fun o => baseAlert o && trueEvent o) run /\
  rFP (baseline r) = count (fun o => baseAlert o && negb (trueEvent o)) run /\
  rFN (baseline r) = count (fun o => negb (baseAlert o) && trueEvent o) run /\
  rTP (improved r) = count (fun o => impAlert o && trueEvent o) run /\
  rFP (improved r) = count (fun o => impAlert o && negb (trueEvent o)) run /\
  rFN (improved r) = count (fun o => negb (impAlert o) && trueEvent o) run.
Proof.
  intro Hr. unfold backtest in Hr. rewrite steps_observations.
  destruct (Backtest.run series low high horizonMin) as [st|] eqn:Hrun;
    [|discriminate].
  injection Hr as <-. rewrite run_fold in Hrun.
  destruct (length series <? 20)%nat; [discriminate|].
  injection Hrun as <-.
  destruct (fold_counts series low high horizonMin
              (sliceSteps series horizonMin)
              (Spec.evaluated series horizonMin) initial)
    as (H1 & H2 & H3 & H4 & H5 & H6).
  cbn [report policyReport baseline improved rTP rFP rFN].
  rewrite H1, H2, H3, H4, H5, H6. cbn. repeat split.
Qed.

Lemma count_split (alert : Obs -> bool) (l : list Obs) :
  (count (fun o => alert o && trueEvent o) l
   + count (fun o => negb (alert o) && trueEvent o) l
   = count trueEvent l)%nat /\
  (count (fun o => alert o && trueEvent o) l
   + count (fun o => alert o && negb (trueEvent o)) l
   + count (fun o => negb (alert o) && trueEvent o) l
   <= length l)%nat.
Proof.
  induction l as [|o l [IH1 IH2]]; [cbn; lia|].
  rewrite !count_cons. cbn [length].
  destruct (alert o), (trueEvent o); cbn [andb negb]; lia.
Qed.

(** X24.  Each evaluated index adds at most one to one of TP, FP and FN
    of each policy, and both policies are scored on the same events:
    TP + FN is the number of evaluated indices with a true event for
    the baseline and for the improved policy alike. *)
Theorem confusion_complete (r : Report) :
  backtest series low high horizonMin = Some r ->
  (rTP (baseline r) + rFN (baseline r) = count trueEvent run)%nat /\
  (rTP (improved r) + rFN (improved r) = count trueEvent run)%nat /\
  (rTP (baseline r) + rFP (baseline r) + rFN (baseline r) <= length run)%nat /\
  (rTP (improved r) + rFP (improved r) + rFN (improved r) <= length run)%nat /\
  length run = length (Spec.evaluated series horizonMin).
Proof.
  intro Hr. destruct (report_counts r Hr) as (B1 & B2 & B3 & I1 & I2 & I3).
  rewrite B1, B2, B3, I1, I2, I3.
  destruct (count_split baseAlert run) as [Hb1 Hb2].
  destruct (count_split impAlert run) as [Hi1 Hi2].
  repeat split; try assumption.
  rewrite steps_observations. unfold backtest in Hr.
  destruct (Backtest.run series low high horizonMin); [|discriminate].
  rewrite <- (length_map index), observations_index. reflexivity.
Qed.

End ConfusionFacts.

Lemma confusion_complete_witness :
  (rTP (baseline Examples.longReport) + rFN (baseline Examples.longReport) =
   rTP (improved Examples.longReport) + rFN (improved Examples.longReport))%nat.
Proof.
  destruct (confusion_complete Examples.long 70 180 30 Examples.longReport)
    as (Hb & Hi & _).
  - vm_compute. reflexivity.
  - now rewrite Hb, Hi.
Defined.

Section ReductionFacts.

Local Open Scope Q_scope.

(** X25.  The false-positive reduction never exceeds 100; with baseline
    false positives it is 100 exactly when the improved policy has
    none and negative exactly when the improved policy has more than
    the baseline; without baseline false positives it is 0 whatever
    the improved policy did. *)
Theorem fpReduction_bounds (baseFP impFP : nat) :
  fpReduction baseFP impFP <= 100 /\
  (baseFP = 0%nat -> fpReduction baseFP impFP = 0) /\
  ((0 < baseFP)%nat ->
   (fpReduction baseFP impFP == 100 <-> impFP = 0%nat) /\
   (fpReduction baseFP impFP < 0 <-> (baseFP < impFP)%nat)).
Proof.
  unfold fpReduction.
  destruct (Nat.eqb_spec baseFP 0) as [->|Hnz].
  - split; [discriminate|]. split; [reflexivity | lia].
  - assert (Hb : 0 < ofNat baseFP) by (apply ofNat_pos; lia).
    pose proof (ofNat_nonneg impFP) as Hi.
    assert (E : (ofNat baseFP - ofNat impFP) / ofNat baseFP * 100
                == 100 - 100 * (ofNat impFP / ofNat baseFP)).
    { field. intro Hz. rewrite Hz in Hb. discriminate. }
    assert (Hq : 0 <= ofNat impFP / ofNat baseFP).
    { apply Qle_shift_div_l; [exact Hb | Lqa.lra]. }
    assert (Hzero : ofNat impFP / ofNat baseFP == 0 <-> impFP = 0%nat).
    { split; intro H.
      - destruct impFP; [reflexivity|]. exfalso.
        assert (Hp : 0 < ofNat (S impFP)) by (apply ofNat_pos; lia).
        assert (Hp' : 0 < ofNat (S impFP) / ofNat baseFP)
          by (apply Qlt_shift_div_l; [exact Hb | Lqa.lra]).
        rewrite H in Hp'. discriminate.
      - subst. unfold Qdiv. change (ofNat 0) with 0. ring. }
    assert (Hone : 1 < ofNat impFP / ofNat baseFP <-> (baseFP < impFP)%nat).
    { split; intro H.
      - destruct (Nat.lt_ge_cases baseFP impFP) as [|Hge]; [assumption|].
        exfalso. apply ofNat_le in Hge.
        assert (ofNat impFP / ofNat baseFP <= 1)
          by (apply Qle_shift_div_r; [exact Hb | Lqa.lra]).
        Lqa.lra.
      - apply Qlt_shift_div_l; [exact Hb|].
        unfold ofNat. rewrite Qmult_1_l, <- Zlt_Qlt. lia. }
    split; [rewrite E; Lqa.lra|]. split; [lia|]. intros _. split.
    + rewrite E. rewrite <- Hzero. split; intro H; Lqa.lra.
    + rewrite E. rewrite <- Hone. split; intro H; Lqa.lra.
Qed.

Lemma fpReduction_bounds_witness : fpReduction 5 0 == 100.
Proof.
  destruct (fpReduction_bounds 5 0) as (_ & _ & H).
  destruct (H ltac:(lia)) as [H100 _]. now apply H100.
Defined.

End ReductionFacts.

(** ** Quiet series *)

Section QuietFacts.

Local Open Scope Q_scope.

Variable series : list Sample.
Variables low high horizonMin : Q.

Lemma Qltb_false (x y : Q) : y <= x -> Qltb x y = false.
Proof.
  intro H. unfold Qltb. apply Qle_bool_iff in H. now rewrite H.
Qed.

Lemma at_in (i : nat) : (i < length series)%nat -> In (at_ series i) series.
Proof. intro H. unfold at_. now apply nth_In. Qed.

(** Without a reading outside the range no future window holds an
    event. *)
Lemma no_event_in_range (h : Z) (i : nat) :
  (forall p, In p series -> low <= bg p <= high) ->
  existsb (fun q => Qltb (bg q) low) (future series h i) = false /\
  existsb (fun q => Qltb high (bg q)) (future series h i) = false.
Proof.
  intro Hall. unfold future. split.
  - destruct (existsb _ _) eqn:E; [|reflexivity].
    apply existsb_slice in E as (k & _ & Hk & Hf).
    rewrite Qltb_false in Hf; [discriminate|]. now apply Hall, at_in.
  - destruct (existsb _ _) eqn:E; [|reflexivity].
    apply existsb_slice in E as (k & _ & Hk & Hf).
    rewrite Qltb_false in Hf; [discriminate|]. now apply Hall, at_in.
Qed.

Lemma count_none (f : Obs -> bool) (l : list Obs) :
  Forall (fun o => f o = false) l -> count f l = 0%nat.
Proof.
  induction 1 as [|o l Ho _ IH]; [reflexivity|].
  rewrite count_cons, Ho, IH. reflexivity.
Qed.

Lemma count_agree (f g : Obs -> bool) (l : list Obs) :
  Forall (fun o => f o = g o) l -> count f l = count g l.
Proof.
  induction 1 as [|o l Ho _ IH]; [reflexivity|].
  rewrite !count_cons, Ho, IH. reflexivity.
Qed.

(** X26.  When no reading of the series is outside the target range, no
    evaluated index has a true event: both policies have no true
    positive and no false negative, so every alert they raise is a
    false positive. *)
Theorem in_range_no_event (r : Report) :
  Forall (fun p => low <= bg p <= high) series ->
  backtest series low high horizonMin = Some r ->
  Forall (fun o => trueEvent o = false) (steps series low high horizonMin) /\
  rTP (baseline r) = 0%nat /\ rFN (baseline r) = 0%nat /\
  rTP (improved r) = 0%nat /\ rFN (improved r) = 0%nat /\
  rFP (baseline r) = count baseAlert (steps series low high horizonMin) /\
  rFP (improved r) = count impAlert (steps series low high horizonMin).
Proof.
  intros Hall Hr. rewrite Forall_forall in Hall.
  assert (Hquiet : Forall (fun o => trueEvent o = false)
                     (steps series low high horizonMin)).
  { rewrite steps_observations.
    destruct (run series low high horizonMin); [|constructor].
    apply observations_Forall. intros i q _.
    destruct (observe_labels series low high horizonMin
                (sliceSteps series horizonMin) q i)
      as (_ & Hhypo & Hhyper & He & _).
    destruct (no_event_in_range (sliceSteps series horizonMin) i Hall)
      as [E1 E2].
    now rewrite He, Hhypo, Hhyper, E1, E2. }
  destruct (report_counts series low high horizonMin r Hr)
    as (B1 & B2 & B3 & I1 & I2 & I3).
  split; [exact Hquiet|].
  rewrite B1, B2, B3, I1, I2, I3.
  assert (Hz : forall f : Obs -> bool,
            count (fun o => f o && trueEvent o)
              (steps series low high horizonMin) = 0%nat).
  { intro f. apply count_none. eapply Forall_impl; [|exact Hquiet].
    cbn beta. intros o ->. apply andb_false_r. }
  assert (Hf : forall f : Obs -> bool,
            count (fun o => f o && negb (trueEvent o))
              (steps series low high horizonMin) =
            count f (steps series low high horizonMin)).
  { intro f. apply count_agree. eapply Forall_impl; [|exact Hquiet].
    cbn beta. intros o ->. apply andb_true_r. }
  rewrite !Hz, !Hf. repeat split.
Qed.

(** X27.  On a flat series strictly inside the target range (every
    reading equal to one value above [low] and below [high]) neither
    policy ever alerts, whatever the timestamps and the horizon: with
    20 samples or more the report holds only zeros.  A value on a
    bound is left out: there the 3-point average, rounded, can leave
    the range. *)
Theorem flat_series_silent (v : Q) :
  Forall (fun p => bg p == v) series ->
  low < v < high ->
  Forall (fun o => baseAlert o = false /\ rawRisk o = NONE /\
                   impAlert o = false /\ trueEvent o = false)
    (steps series low high horizonMin) /\
  ((20 <= length series)%nat ->
   backtest series low high horizonMin = Some zeroReport).
Proof.
  intros Hflat Hstrict. rewrite Forall_forall in Hflat.
  assert (Hv : low <= v <= high) by (split; apply Qlt_le_weak; tauto).
  assert (Hat : forall k, (k < length series)%nat -> bg (at_ series k) == v).
  { intros k Hk. now apply Hflat, at_in. }
  assert (Hrange : forall p, In p series -> low <= bg p <= high).
  { intros p Hp. rewrite (Hflat p Hp). exact Hv. }
  assert (Hsteps : Forall (fun o => baseAlert o = false /\ rawRisk o = NONE /\
                                    impAlert o = false /\ trueEvent o = false)
                     (steps series low high horizonMin)).
  { rewrite steps_observations.
    destruct (run series low high horizonMin); [|constructor].
    set (h := sliceSteps series horizonMin).
    assert (Hobs : forall idxs p,
              (forall i, In i idxs -> In i (Spec.evaluated series horizonMin)) ->
              Forall (fun o => baseAlert o = false /\ rawRisk o = NONE /\
                               impAlert o = false /\ trueEvent o = false)
                (observations series low high horizonMin h p idxs)).
    { induction idxs as [|i idxs IH]; intros p Hsub; cbn [observations];
        [constructor|].
      destruct (observe series low high horizonMin h p i) as [p1 o] eqn:E.
      constructor; [|apply IH; intros j Hj; apply Hsub; now right].
      destruct (evaluated_reads_in_range series horizonMin i
                  (Hsub i (or_introl eq_refl))) as (Hi & H2 & Hs & _).
      pose proof (observe_labels series low high horizonMin h p i) as Hl.
      rewrite E in Hl. cbn [snd] in Hl.
      destruct Hl as (_ & Hhypo & Hhyper & He & Hbh & Hby & Hba & Hrisk).
      apply observe_policy in E as (_ & _ & _ & _ & Himp & _).
      destruct (no_event_in_range h i Hrange) as [E1 E2].
      assert (Hslope : slopePerMin series i 6 == 0).
      { unfold slopePerMin. cbv zeta.
        destruct (Qle_bool _ 0); [reflexivity|].
        rewrite (Hat i Hi), (Hat _ Hs). unfold Qdiv. ring. }
      assert (Hproj : projectedBg series horizonMin i == v).
      { unfold projectedBg. cbv zeta. rewrite Hslope, (Hat i Hi). ring. }
      assert (Hsmooth : smoothBg series i == v).
      { unfold smoothBg. cbv zeta.
        rewrite (Hat i Hi), (Hat (i - 1)%nat ltac:(lia)),
          (Hat (i - 2)%nat ltac:(lia)).
        field. }
      assert (Hsproj : smoothProj series horizonMin i == v).
      { unfold smoothProj. cbv zeta. rewrite Hslope, Hsmooth. ring. }
      assert (Hnone : rawRisk o = NONE).
      { rewrite Hrisk. unfold rawRiskAt. cbv zeta.
        rewrite !Qltb_false; [reflexivity | | | |];
          rewrite ?Hsmooth, ?Hsproj; tauto. }
      assert (Hbase : baseAlert o = false).
      { rewrite Hba, Hbh, Hby.
        rewrite !Qltb_false; [reflexivity | | | |];
          rewrite ?Hproj, ?(Hat i Hi); tauto. }
      repeat split; try assumption.
      - rewrite Himp, Hnone. cbn [Risk_eqb negb].
        now rewrite andb_false_r.
      - now rewrite He, Hhypo, Hhyper, E1, E2. }
    apply Hobs. auto. }
  split; [exact Hsteps|].
  intro Hlen. unfold backtest.
  destruct (run series low high horizonMin) as [st|] eqn:Hrun.
  2:{ unfold run in Hrun. destruct (Nat.ltb_spec (length series) 20);
        [lia | discriminate]. }
  assert (Hr : backtest series low high horizonMin = Some (report st)).
  { unfold backtest. now rewrite Hrun. }
  destruct (report_counts series low high horizonMin (report st) Hr)
    as (B1 & B2 & B3 & I1 & I2 & I3).
  assert (Hz : forall f g : Obs -> bool,
            (forall o, baseAlert o = false -> impAlert o = false ->
                       trueEvent o = false -> f o && g o = false) ->
            count (fun o => f o && g o)
              (steps series low high horizonMin) = 0%nat).
  { intros f g Hfg. apply count_none. eapply Forall_impl; [|exact Hsteps].
    cbn beta. intros o (Hb & _ & Hi & He). now apply Hfg. }
  rewrite Hz in B1, B2, B3, I1, I2, I3;
    try (intros o Hb Hi He; rewrite ?Hb, ?Hi, ?He; reflexivity).
  cbn [option_map]. f_equal. unfold report.
  cbn [report policyReport baseline improved rTP rFP rFN] in B1, B2, B3, I1, I2, I3.
  revert B1 B2 B3 I1 I2 I3.
  destruct (baseC st) as [btp bfp bfn], (impC st) as [itp ifp ifn].
  cbn [TP FP FN]. intros. subst. reflexivity.
Qed.

End QuietFacts.

Lemma in_range_check (series : list Sample) (low high : Q) :
  forallb (fun p => Qle_bool low (bg p) && Qle_bool (bg p) high) series = true ->
  Forall (fun p => (low <= bg p <= high)%Q) series.
Proof.
  intro H. apply Forall_forall. intros p Hp.
  apply (proj1 (forallb_forall _ _) H) in Hp.
  apply andb_true_iff in Hp as [H1 H2].
  split; now apply Qle_bool_iff.
Qed.

Lemma flat_check (series : list Sample) (v : Q) :
  forallb (fun p => Qeq_bool (bg p) v) series = true ->
  Forall (fun p => (bg p == v)%Q) series.
Proof.
  intro H. apply Forall_forall. intros p Hp.
  apply (proj1 (forallb_forall _ _) H) in Hp. now apply Qeq_bool_iff.
Qed.

(** On the rising series the baseline alerts nine times on its
    projection, nothing leaves the range, and all nine alerts count as
    false positives. *)
Lemma in_range_no_event_witness :
  rTP (baseline QuietExamples.rampReport) = 0%nat /\
  rFN (baseline QuietExamples.rampReport) = 0%nat /\
  rFP (baseline QuietExamples.rampReport) = 9%nat.
Proof.
  destruct (in_range_no_event QuietExamples.ramp 70 180 30
              QuietExamples.rampReport) as (_ & H1 & H2 & _).
  - apply in_range_check. vm_compute. reflexivity.
  - vm_compute. reflexivity.
  - split; [exact H1|]. split; [exact H2 | reflexivity].
Defined.

Lemma flat_series_silent_witness :
  backtest QuietExamples.flat 70 180 30 = Some zeroReport.
Proof.
  destruct (flat_series_silent QuietExamples.flat 70 180 30 150) as [_ H].
  - apply flat_check. vm_compute. reflexivity.
  - split; reflexivity.
  - apply H. vm_compute. lia.
Defined.
